(** * base-yield-agent: the agent coordinator and the blockchain tools

    A shallow embedding of [src/services/agent-coordinator.ts] (the
    in-memory agent registry, mailboxes and task delegations) and of
    [src/tools/blockchain-tools.ts] (the try/catch wrappers around RPC
    reads), with the properties of the specification stated over them. *)

From Stdlib Require Import ZArith SpecFloat.
From stdpp Require Import gmap strings list fin_maps sorting pretty.

Local Open Scope Z_scope.

(** ** JavaScript values

    Payloads, task parameters and delegation results are typed [any] in
    the source.  Numbers are kept integral here; only equality and
    truthiness of such values are ever observed by the coordinator. *)

#[warnings="-register-all"]
Inductive JsValue : Type :=
  | JsUndefined
  | JsNull
  | JsBool (b : bool)
  | JsNumber (n : Z)
  | JsString (s : string)
  | JsObject (fields : list (string * JsValue)).

(** ToBoolean: [undefined], [null], [false], [0] and [''] are falsy. *)
Definition truthy (v : JsValue) : bool :=
  match v with
  | JsUndefined | JsNull => false
  | JsBool b => b
  | JsNumber n => negb (n =? 0)
  | JsString s => negb (String.eqb s "")
  | JsObject _ => true
  end.

(** An optional [string] parameter or field as a JavaScript value. *)
Definition js_of_opt_string (o : option string) : JsValue :=
  match o with
  | Some s => JsString s
  | None => JsUndefined
  end.

(** ** Insertion-ordered maps

    A JavaScript [Map] iterates in insertion order, and [set] on a key that
    is already present replaces the value without moving the entry.
    Plain objects with string keys behave the same way. *)

Module JsMap.
Section Ops.
Context {V : Type}.

Fixpoint get (k : string) (m : list (string * V)) : option V :=
  match m with
  | [] => None
  | (k', v) :: m' => if String.eqb k k' then Some v else get k m'
  end.

Fixpoint set (k : string) (v : V) (m : list (string * V)) : list (string * V) :=
  match m with
  | [] => [(k, v)]
  | (k', v') :: m' =>
      if String.eqb k k' then (k, v) :: m' else (k', v') :: set k v m'
  end.

Definition keys (m : list (string * V)) : list string := m.*1.
Definition values (m : list (string * V)) : list V := m.*2.
End Ops.
End JsMap.

(** ** Array.prototype.sort

    The language guarantees a stable sort: [cmp a b <= 0] keeps [a] in
    front of [b].  Which algorithm an engine runs is not observable for a
    consistent comparator, so a stable insertion sort stands for it. *)

Fixpoint sort_insert {A} (cmp : A → A → Z) (x : A) (l : list A) : list A :=
  match l with
  | [] => [x]
  | y :: l' => if cmp x y <=? 0 then x :: y :: l' else y :: sort_insert cmp x l'
  end.

Fixpoint Array_sort {A} (cmp : A → A → Z) (l : list A) : list A :=
  match l with
  | [] => []
  | x :: l' => sort_insert cmp x (Array_sort cmp l')
  end.

(** The comparator [(a, b) => b.key - a.key]. *)
Definition by_key_desc {A} (key : A → Z) (a b : A) : Z := key b - key a.

(** [Array.prototype.includes] on an array of strings. *)
Definition includes (l : list string) (s : string) : bool :=
  existsb (String.eqb s) l.

(** ** Completions

    A call either returns a value or throws [new Error(message)]. *)

Inductive Outcome (A : Type) : Type :=
  | Returned (a : A)
  | Thrown (message : string).
Arguments Returned {A} a.
Arguments Thrown {A} message.

#[global] Instance Outcome_ret : MRet Outcome := λ A a, Returned a.
#[global] Instance Outcome_bind : MBind Outcome := λ A B f o,
  match o with
  | Returned a => f a
  | Thrown e => Thrown e
  end.

(** [try { body } catch (error) { handler(error.message) }] *)
Definition try_catch {A} (body : Outcome A) (handler : string → A) : A :=
  match body with
  | Returned a => a
  | Thrown message => handler message
  end.

(** ** The agent coordinator (src/services/agent-coordinator.ts) *)

Module Coordinator.

Record AgentCapability : Type := {
  cap_id : string;
  cap_name : string;
  cap_description : string;
  chains : list string;
  protocols : list string;
  operations : list string;
}.

(** [Omit<RegisteredAgent, 'registeredAt' | 'lastSeen' | 'reputation'>] *)
Record AgentDescriptor : Type := {
  d_id : string;
  d_name : string;
  d_endpoint : string;
  d_capabilities : list AgentCapability;
}.

(** Dates are kept as their epoch milliseconds; the reputation is the
    integer score of the data model. *)
Record RegisteredAgent : Type := {
  a_id : string;
  a_name : string;
  a_endpoint : string;
  a_capabilities : list AgentCapability;
  registeredAt : Z;
  lastSeen : Z;
  reputation : Z;
}.

Inductive MessageType : Type := MsgRequest | MsgResponse | MsgEvent | MsgDelegation.

(** [Omit<AgentMessage, 'timestamp'>] *)
Record MessageInput : Type := {
  i_from : string;
  i_to : string;
  i_type : MessageType;
  i_payload : JsValue;
  i_signature : option string;
}.

Record AgentMessage : Type := {
  m_from : string;
  m_to : string;
  m_type : MessageType;
  m_payload : JsValue;
  timestamp : Z;
  m_signature : option string;
}.

Record Task : Type := {
  t_type : string;
  t_description : string;
  t_parameters : JsValue;
}.

Inductive Status : Type := Pending | InProgress | Completed | Failed.

Definition status_string (st : Status) : string :=
  match st with
  | Pending => "pending"
  | InProgress => "in-progress"
  | Completed => "completed"
  | Failed => "failed"
  end.

(** [Omit<TaskDelegation, 'taskId' | 'status'>]; an absent [result] is
    [JsUndefined], an absent [error] is [None]. *)
Record DelegationInput : Type := {
  i_fromAgent : string;
  i_toAgent : string;
  i_task : Task;
  i_result : JsValue;
  i_error : option string;
}.

Record TaskDelegation : Type := {
  taskId : string;
  fromAgent : string;
  toAgent : string;
  task : Task;
  status : Status;
  result : JsValue;
  error : option string;
}.

Record Step : Type := {
  agentCapability : string;
  step_task : JsValue;
}.

Record Workflow : Type := {
  w_name : string;
  steps : list Step;
}.

(** One entry of the array [composeWorkflow] returns. *)
Record StepResult : Type := {
  r_step : string;
  r_agent : string;
  r_result : TaskDelegation;
}.

Definition js_of_task (t : Task) : JsValue :=
  JsObject [("type", JsString (t_type t));
            ("description", JsString (t_description t));
            ("parameters", t_parameters t)].

(** The three private maps of [AgentCoordinatorService], together with the
    number of identifiers and of clock readings the host has handed out so
    far.  [agents] keeps insertion order because [discoverAgents] iterates
    it; the other two maps are only ever looked up by key. *)
Record Service : Type := {
  agents : list (string * RegisteredAgent);
  messages : gmap string (list AgentMessage);
  delegations : gmap string TaskDelegation;
  uuidCalls : nat;
  clockCalls : nat;
}.

Definition initial : Service :=
  {| agents := []; messages := ∅; delegations := ∅; uuidCalls := 0; clockCalls := 0 |}.

Definition with_agents (f : list (string * RegisteredAgent) → list (string * RegisteredAgent))
    (s : Service) : Service :=
  {| agents := f (agents s); messages := messages s; delegations := delegations s;
     uuidCalls := uuidCalls s; clockCalls := clockCalls s |}.

Definition with_messages (f : gmap string (list AgentMessage) → gmap string (list AgentMessage))
    (s : Service) : Service :=
  {| agents := agents s; messages := f (messages s); delegations := delegations s;
     uuidCalls := uuidCalls s; clockCalls := clockCalls s |}.

Definition with_delegations (f : gmap string TaskDelegation → gmap string TaskDelegation)
    (s : Service) : Service :=
  {| agents := agents s; messages := messages s; delegations := f (delegations s);
     uuidCalls := uuidCalls s; clockCalls := clockCalls s |}.

(** A method leaves the service in some state whether it returns or throws. *)
Definition M (A : Type) : Type := Service → Outcome A * Service.

#[global] Instance M_ret : MRet M := λ A a s, (Returned a, s).
#[global] Instance M_bind : MBind M := λ A B f m s,
  match m s with
  | (Returned a, s') => f a s'
  | (Thrown e, s') => (Thrown e, s')
  end.

Definition throw {A} (message : string) : M A := λ s, (Thrown message, s).
Definition getService : M Service := λ s, (Returned s, s).
Definition modify (f : Service → Service) : M () := λ s, (Returned (), f s).

(** The methods are [async] but never wait on anything outside the
    service, so each call runs to completion on the state it is given.
    What they write to the console is left out. *)
Section Methods.
(** The host: [crypto.randomUUID()] and the clock behind [Date.now()]
    and [new Date()], as the sequences of values they produce. *)
Variable randomUUID : nat → string.
Variable clock : nat → Z.

Definition crypto_randomUUID : M string := λ s,
  (Returned (randomUUID (uuidCalls s)),
   {| agents := agents s; messages := messages s; delegations := delegations s;
      uuidCalls := S (uuidCalls s); clockCalls := clockCalls s |}).

Definition Date_now : M Z := λ s,
  (Returned (clock (clockCalls s)),
   {| agents := agents s; messages := messages s; delegations := delegations s;
      uuidCalls := uuidCalls s; clockCalls := S (clockCalls s) |}).

Definition registerAgent (agent : AgentDescriptor) : M RegisteredAgent :=
  t1 ← Date_now;
  t2 ← Date_now;
  let registeredAgent :=
    {| a_id := d_id agent; a_name := d_name agent; a_endpoint := d_endpoint agent;
       a_capabilities := d_capabilities agent;
       registeredAt := t1; lastSeen := t2; reputation := 100 |} in
  modify (with_agents (JsMap.set (d_id agent) registeredAgent));;
  mret registeredAgent.

Definition hasCapability (capability : string) (agent : RegisteredAgent) : bool :=
  existsb (λ cap, includes (operations cap) capability
                  || includes (protocols cap) capability
                  || includes (chains cap) capability)
          (a_capabilities agent).

Definition discoverAgents (capability : string) : M (list RegisteredAgent) :=
  s ← getService;
  let matchingAgents :=
    foldl (λ acc agent, if hasCapability capability agent then acc ++ [agent] else acc)
          [] (JsMap.values (agents s)) in
  mret (Array_sort (by_key_desc reputation) matchingAgents).

(** [{ ...message, timestamp }] *)
Definition stamp (message : MessageInput) (t : Z) : AgentMessage :=
  {| m_from := i_from message; m_to := i_to message; m_type := i_type message;
     m_payload := i_payload message; timestamp := t;
     m_signature := i_signature message |}.

(** Push onto the recipient's queue, [[]] when there is none yet, and
    store the queue back. *)
Definition deliver (fullMessage : AgentMessage)
    (mailboxes : gmap string (list AgentMessage)) : gmap string (list AgentMessage) :=
  let recipientMessages := default [] (mailboxes !! m_to fullMessage) in
  <[m_to fullMessage := recipientMessages ++ [fullMessage]]> mailboxes.

Definition sendMessage (message : MessageInput) : M () :=
  t ← Date_now;
  let fullMessage := stamp message t in
  modify (with_messages (deliver fullMessage)).

Definition receiveMessages (agentId : string) : M (list AgentMessage) :=
  s ← getService;
  let msgs := default [] (messages s !! agentId) in
  modify (with_messages (delete agentId));;
  mret msgs.

Definition delegateTask (d : DelegationInput) : M TaskDelegation :=
  id ← crypto_randomUUID;
  let fullDelegation :=
    {| taskId := id; fromAgent := i_fromAgent d; toAgent := i_toAgent d;
       task := i_task d; status := Pending;
       result := i_result d; error := i_error d |} in
  modify (with_delegations <[id := fullDelegation]>);;
  sendMessage {| i_from := i_fromAgent d; i_to := i_toAgent d; i_type := MsgDelegation;
                 i_payload := JsObject [("taskId", JsString id);
                                        ("task", js_of_task (i_task d))];
                 i_signature := None |};;
  mret fullDelegation.

Definition updateDelegation (id : string) (st : Status)
    (res : JsValue) (err : option string) : M () :=
  s ← getService;
  match delegations s !! id with
  | None => throw ("Delegation not found: " +:+ id)
  | Some d =>
      let d' :=
        {| taskId := taskId d; fromAgent := fromAgent d; toAgent := toAgent d;
           task := task d; status := st;
           result := if truthy res then res else result d;
           error := if truthy (js_of_opt_string err) then err else error d |} in
      modify (with_delegations <[id := d']>);;
      sendMessage {| i_from := toAgent d; i_to := fromAgent d; i_type := MsgResponse;
                     i_payload := JsObject [("taskId", JsString id);
                                            ("status", JsString (status_string st));
                                            ("result", res);
                                            ("error", js_of_opt_string err)];
                     i_signature := None |}
  end.

Definition getDelegation (id : string) : M (option TaskDelegation) :=
  s ← getService; mret (delegations s !! id).

Definition listAgents : M (list RegisteredAgent) :=
  s ← getService; mret (JsMap.values (agents s)).

(** Reputations and deltas are integers: [delta] stands for an
    integer-valued number.  What [Math.max] and [Math.min] make of a delta
    that is [NaN] is not covered. *)
Definition updateReputation (agentId : string) (delta : Z) : M () :=
  s ← getService;
  match JsMap.get agentId (agents s) with
  | None => throw ("Agent not found: " +:+ agentId)
  | Some agent =>
      let rep := Z.max 0 (Z.min 200 (reputation agent + delta)) in
      t ← Date_now;
      let agent' :=
        {| a_id := a_id agent; a_name := a_name agent; a_endpoint := a_endpoint agent;
           a_capabilities := a_capabilities agent; registeredAt := registeredAt agent;
           lastSeen := t; reputation := rep |} in
      modify (with_agents (JsMap.set agentId agent'))
  end.

(** The body of the [for (const step of workflow.steps)] loop, with the
    [results] array accumulated so far. *)
Fixpoint composeSteps (name : string) (todo : list Step) (results : list StepResult)
    : M (list StepResult) :=
  match todo with
  | [] => mret results
  | step :: rest =>
      found ← discoverAgents (agentCapability step);
      match found with
      | [] => throw ("No agent found with capability: " +:+ agentCapability step)
      | bestAgent :: _ =>
          d ← delegateTask {| i_fromAgent := "coordinator"; i_toAgent := a_id bestAgent;
                              i_task := {| t_type := agentCapability step;
                                           t_description := "Workflow step: " +:+ name;
                                           t_parameters := step_task step |};
                              i_result := JsUndefined; i_error := None |};
          composeSteps name rest
            (results ++ [{| r_step := agentCapability step; r_agent := a_name bestAgent;
                            r_result := d |}])
      end
  end.

Definition composeWorkflow (workflow : Workflow) : M (list StepResult) :=
  composeSteps (w_name workflow) (steps workflow) [].

End Methods.

(** The tag occurs in the operations, protocols or chains of one of the
    agent's capabilities. *)
Definition has_tag (tag : string) (agent : RegisteredAgent) : Prop :=
  ∃ cap, cap ∈ a_capabilities agent ∧
         (tag ∈ operations cap ∨ tag ∈ protocols cap ∨ tag ∈ chains cap).

End Coordinator.

(** ** JavaScript numbers

    A [number] is an IEEE 754 binary64 value; its operations are those of
    the Standard Library's executable specification of floating point,
    which rounds to nearest, ties to even. *)

Module Binary64.

Definition prec : Z := 53.
Definition emax : Z := 1024.

(** [Number(n)] for a bigint or an integer literal [n]: the nearest
    double. *)
Definition of_Z (n : Z) : spec_float := binary_normalize prec emax n 0 false.

Definition div (x y : spec_float) : spec_float := SFdiv prec emax x y.
Definition mul (x y : spec_float) : spec_float := SFmul prec emax x y.

(** Two decimal digits, zero-padded, of [0 <= n < 100]. *)
Definition two_digits (n : Z) : string :=
  (if n <? 10 then "0" else "") +:+ pretty n.

(** The integer [n] for which [n / 100 - m * 2^e] is closest to zero,
    the larger one on a tie (step 10.a of Number.prototype.toFixed). *)
Definition nearest_hundredths (m : positive) (e : Z) : Z :=
  if 0 <=? e then Z.pos m * 2 ^ e * 100
  else (200 * Z.pos m + 2 ^ (- e)) / 2 ^ (1 - e).

(** [m * 2^e >= 10^21] *)
Definition at_least_1e21 (m : positive) (e : Z) : bool :=
  if 0 <=? e then 10 ^ 21 <=? Z.pos m * 2 ^ e
  else 10 ^ 21 * 2 ^ (- e) <=? Z.pos m.

(** [x.toFixed(2)].  From [10^21] on the method falls back to
    Number::toString, which is passed in. *)
Definition toFixed2 (Number_toString : spec_float → string) (x : spec_float) : string :=
  match x with
  | S754_nan => "NaN"
  | S754_infinity s => if s then "-Infinity" else "Infinity"
  | S754_zero _ => "0.00"
  | S754_finite s m e =>
      (if s then "-" else "") +:+
      (if at_least_1e21 m e then Number_toString (S754_finite false m e)
       else let n := nearest_hundredths m e in
            pretty (n / 100) +:+ "." +:+ two_digits (n mod 100))
  end.

End Binary64.

(** ** The blockchain tools (src/tools/blockchain-tools.ts) *)

Module BlockchainTools.

(** [keyof typeof CHAINS] *)
Inductive ChainName : Type := base | mainnet | arbitrum | optimism | polygon.

#[global] Instance ChainName_eq_dec : EqDecision ChainName.
Proof. solve_decision. Defined.

Definition chain_key (c : ChainName) : string :=
  match c with
  | base => "base"
  | mainnet => "mainnet"
  | arbitrum => "arbitrum"
  | optimism => "optimism"
  | polygon => "polygon"
  end.

(** The entries of the decoded [getReserveData] tuple the tool reads:
    positions 2, 4, 6 and 8. *)
Record ReserveData : Type := {
  currentLiquidityRate : Z;
  currentVariableBorrowRate : Z;
  lastUpdateTimestamp : Z;
  aTokenAddress : string;
}.

(** What the tools import or inherit from outside the repository: the
    chain table of viem/chains, the viem client bound to a chain (one
    field per ABI fragment the tools read with), viem's encoder and its
    parser of human-readable ABI fragments, the builtins [BigInt],
    Number::toString and [Date.prototype.toISOString], and which of several
    rejected promises settles first. *)
Record Runtime : Type := {
  chain_id : ChainName → Z;
  readContract : ChainName → string → list JsValue → string → list JsValue → Outcome JsValue;
  read_balanceOf : ChainName → string → string → Outcome Z;
  read_getReserveData : ChainName → string → string → Outcome ReserveData;
  read_token0 : ChainName → string → Outcome string;
  read_token1 : ChainName → string → Outcome string;
  read_fee : ChainName → string → Outcome Z;
  read_liquidity : ChainName → string → Outcome Z;
  read_slot0 : ChainName → string → Outcome (Z * Z);
  client_call : ChainName → string → string → option string → option Z → Outcome (option string);
  estimateGas : ChainName → string → string → option string → option Z → Outcome Z;
  encodeFunctionData : list JsValue → string → list JsValue → Outcome string;
  parseAbi : list string → Outcome (list JsValue);
  BigInt : string → Outcome Z;
  Number_toString : spec_float → string;
  Date_toISOString : Z → Outcome string;
  settles_first : nat;
}.

Record CallContractParams : Type := {
  cc_chain : ChainName;
  cc_contractAddress : string;
  cc_functionName : string;
  cc_abi : list JsValue;
  cc_args : option (list JsValue);
}.

Record SimulateParams : Type := {
  sim_chain : ChainName;
  sim_from : string;
  sim_to : string;
  sim_data : option string;
  sim_value : option string;
}.

Record BuildParams : Type := {
  bt_chain : ChainName;
  bt_contractAddress : string;
  bt_functionName : string;
  bt_abi : list JsValue;
  bt_args : option (list JsValue);
  bt_value : option string;
}.

Record AaveParams : Type := { aave_chain : ChainName; aave_asset : string }.

Record UniswapParams : Type := { uni_chain : ChainName; uni_poolAddress : string }.

Record BalanceParams : Type := {
  bal_address : string;
  bal_tokenAddress : string;
  bal_chains : list ChainName;
}.

(** Property [k] of an object; [None] when it has no such own property or
    is not an object. *)
Definition field (k : string) (v : JsValue) : option JsValue :=
  match v with
  | JsObject fields => JsMap.get k fields
  | _ => None
  end.

Definition rejection {A} (o : Outcome A) : list string :=
  match o with
  | Returned _ => []
  | Thrown message => [message]
  end.

(** [Promise.all] over five promises: fulfilled with all the values, or
    rejected with the error of whichever rejection settles first. *)
Definition Promise_all5 {A B C D E} (first : nat)
    (a : Outcome A) (b : Outcome B) (c : Outcome C) (d : Outcome D) (e : Outcome E)
    : Outcome (A * B * C * D * E) :=
  match a, b, c, d, e with
  | Returned va, Returned vb, Returned vc, Returned vd, Returned ve =>
      Returned (va, vb, vc, vd, ve)
  | _, _, _, _, _ =>
      let rejected := rejection a ++ rejection b ++ rejection c ++ rejection d ++ rejection e in
      Thrown (nth (first mod length rejected)%nat rejected "")
  end.

(** The fragment the Aave tool hands to [parseAbi]. *)
Definition getReserveData_fragment : string :=
  "function getReserveData(address asset) view returns (tuple(uint256 configuration, uint128 liquidityIndex, uint128 currentLiquidityRate, uint128 variableBorrowIndex, uint128 currentVariableBorrowRate, uint128 currentStableBorrowRate, uint40 lastUpdateTimestamp, uint16 id, address aTokenAddress, address stableDebtTokenAddress, address variableDebtTokenAddress, address interestRateStrategyAddress, uint128 accruedToTreasury, uint128 unbacked, uint128 isolationModeTotalDebt))".

Definition AAVE_POOL_ADDRESSES (c : ChainName) : string :=
  match c with
  | base => "0xA238Dd80C259a72e81d7e4664a9801593F98d1c5"
  | mainnet => "0x87870Bca3F3fD6335C3F4ce8392D69350B4fA4E2"
  | arbitrum => "0x794a61358D6845594F94dc1DB02A252b5b4814aD"
  | optimism => "0x794a61358D6845594F94dc1DB02A252b5b4814aD"
  | polygon => "0x794a61358D6845594F94dc1DB02A252b5b4814aD"
  end.

Section Tools.
Variable rt : Runtime.

(** [value ? BigInt(value) : undefined] *)
Definition optional_BigInt (value : option string) : Outcome (option Z) :=
  if truthy (js_of_opt_string value)
  then n ← BigInt rt (default "" value); mret (Some n)
  else mret None.

(** *** callContract *)

Definition callContract_try (params : CallContractParams) : Outcome JsValue :=
  res ← readContract rt (cc_chain params) (cc_contractAddress params) (cc_abi params)
                     (cc_functionName params) (default [] (cc_args params));
  mret (JsObject [("success", JsBool true);
                  ("chain", JsString (chain_key (cc_chain params)));
                  ("contract", JsString (cc_contractAddress params));
                  ("function", JsString (cc_functionName params));
                  ("result", res)]).

Definition callContract_catch (params : CallContractParams) (message : string) : JsValue :=
  JsObject [("success", JsBool false);
            ("error", JsString message);
            ("chain", JsString (chain_key (cc_chain params)));
            ("contract", JsString (cc_contractAddress params))].

Definition callContract (params : CallContractParams) : JsValue :=
  try_catch (callContract_try params) (callContract_catch params).

(** *** simulateTransactionTool *)

Definition simulateTransaction_try (params : SimulateParams) : Outcome JsValue :=
  v ← optional_BigInt (sim_value params);
  res ← client_call rt (sim_chain params) (sim_from params) (sim_to params)
                    (sim_data params) v;
  v' ← optional_BigInt (sim_value params);
  gasEstimate ← estimateGas rt (sim_chain params) (sim_from params) (sim_to params)
                            (sim_data params) v';
  mret (JsObject [("success", JsBool true);
                  ("chain", JsString (chain_key (sim_chain params)));
                  ("simulation",
                   JsObject [("willSucceed", JsBool true);
                             ("result", js_of_opt_string res);
                             ("estimatedGas", JsString (pretty gasEstimate))])]).

Definition simulateTransaction_catch (params : SimulateParams) (message : string) : JsValue :=
  JsObject [("success", JsBool false);
            ("chain", JsString (chain_key (sim_chain params)));
            ("simulation",
             JsObject [("willSucceed", JsBool false);
                       ("error", JsString message)])].

Definition simulateTransactionTool (params : SimulateParams) : JsValue :=
  try_catch (simulateTransaction_try params) (simulateTransaction_catch params).

(** *** buildTransactionTool *)

Definition buildTransaction_try (params : BuildParams) : Outcome JsValue :=
  data ← encodeFunctionData rt (bt_abi params) (bt_functionName params)
                            (default [] (bt_args params));
  mret (JsObject [("success", JsBool true);
                  ("chain", JsString (chain_key (bt_chain params)));
                  ("transaction",
                   JsObject [("to", JsString (bt_contractAddress params));
                             ("data", JsString data);
                             ("value",
                              if truthy (js_of_opt_string (bt_value params))
                              then js_of_opt_string (bt_value params)
                              else JsString "0");
                             ("chainId", JsNumber (chain_id rt (bt_chain params)))]);
                  ("instructions",
                   JsString "User should sign and broadcast this transaction using their wallet")]).

Definition buildTransaction_catch (params : BuildParams) (message : string) : JsValue :=
  JsObject [("success", JsBool false);
            ("error", JsString message)].

Definition buildTransactionTool (params : BuildParams) : JsValue :=
  try_catch (buildTransaction_try params) (buildTransaction_catch params).

(** *** getAaveDataTool

    The argument object of [readContract] is built first, so [parseAbi]
    runs, inside the [try], before anything is read. *)

(** [((Number(rate) / 1e27) * 100).toFixed(2) + '%'] *)
Definition apy_string (rate : Z) : string :=
  Binary64.toFixed2 (Number_toString rt)
    (Binary64.mul (Binary64.div (Binary64.of_Z rate) (Binary64.of_Z (10 ^ 27)))
                  (Binary64.of_Z 100))
  +:+ "%".

Definition getAaveData_try (params : AaveParams) : Outcome JsValue :=
  let poolAddress := AAVE_POOL_ADDRESSES (aave_chain params) in
  abi ← parseAbi rt [getReserveData_fragment];
  reserveData ← read_getReserveData rt (aave_chain params) poolAddress (aave_asset params);
  let supplyAPY := apy_string (currentLiquidityRate reserveData) in
  let borrowAPY := apy_string (currentVariableBorrowRate reserveData) in
  lastUpdate ← Date_toISOString rt (lastUpdateTimestamp reserveData * 1000);
  mret (JsObject [("success", JsBool true);
                  ("chain", JsString (chain_key (aave_chain params)));
                  ("protocol", JsString "Aave V3");
                  ("asset", JsString (aave_asset params));
                  ("data",
                   JsObject [("supplyAPY", JsString supplyAPY);
                             ("borrowAPY", JsString borrowAPY);
                             ("aTokenAddress", JsString (aTokenAddress reserveData));
                             ("lastUpdate", JsString lastUpdate)])]).

Definition getAaveData_catch (params : AaveParams) (message : string) : JsValue :=
  JsObject [("success", JsBool false);
            ("error", JsString message);
            ("chain", JsString (chain_key (aave_chain params)));
            ("protocol", JsString "Aave V3")].

Definition getAaveDataTool (params : AaveParams) : JsValue :=
  try_catch (getAaveData_try params) (getAaveData_catch params).

(** *** getUniswapPoolTool *)

Definition getUniswapPool_try (params : UniswapParams) : Outcome JsValue :=
  let chain := uni_chain params in
  let pool := uni_poolAddress params in
  '(token0, token1, fee, liquidity, slot0) ←
    Promise_all5 (settles_first rt)
      (read_token0 rt chain pool) (read_token1 rt chain pool) (read_fee rt chain pool)
      (read_liquidity rt chain pool) (read_slot0 rt chain pool);
  mret (JsObject [("success", JsBool true);
                  ("chain", JsString (chain_key chain));
                  ("protocol", JsString "Uniswap V3");
                  ("pool", JsString pool);
                  ("data",
                   JsObject [("token0", JsString token0);
                             ("token1", JsString token1);
                             ("fee",
                              JsString (Number_toString rt
                                          (Binary64.div (Binary64.of_Z fee)
                                                        (Binary64.of_Z 10000))
                                        +:+ "%"));
                             ("liquidity", JsString (pretty liquidity));
                             ("currentTick", JsNumber (snd slot0));
                             ("sqrtPriceX96", JsString (pretty (fst slot0)))])]).

Definition getUniswapPool_catch (params : UniswapParams) (message : string) : JsValue :=
  JsObject [("success", JsBool false);
            ("error", JsString message);
            ("chain", JsString (chain_key (uni_chain params)));
            ("protocol", JsString "Uniswap V3")].

Definition getUniswapPoolTool (params : UniswapParams) : JsValue :=
  try_catch (getUniswapPool_try params) (getUniswapPool_catch params).

(** *** getMultiChainBalanceTool *)

(** The inner [try]/[catch] of one chain: the string stored in
    [balances[chain]].  A read is determined by the chain, the token and
    the owner. *)
Definition balance_slot (params : BalanceParams) (chain : ChainName) : string :=
  try_catch
    (balance ← read_balanceOf rt chain (bal_tokenAddress params) (bal_address params);
     mret (pretty balance))
    (λ message, "Error: " +:+ message).

(** The [balances] object once every per-chain promise has settled, the
    slots written in the order [settled]. *)
Definition fill_balances (params : BalanceParams) (settled : list ChainName)
    : list (string * JsValue) :=
  foldl (λ balances chain,
           JsMap.set (chain_key chain) (JsString (balance_slot params chain)) balances)
        [] settled.

(** No per-chain promise rejects, so [Promise.all] fulfils and nothing
    reaches the outer [catch]. *)
Definition getMultiChainBalance_try (params : BalanceParams) : Outcome JsValue :=
  let balances := fill_balances params (bal_chains params) in
  mret (JsObject [("success", JsBool true);
                  ("address", JsString (bal_address params));
                  ("token", JsString (bal_tokenAddress params));
                  ("balances", JsObject balances)]).

Definition getMultiChainBalance_catch (params : BalanceParams) (message : string) : JsValue :=
  JsObject [("success", JsBool false);
            ("error", JsString message)].

Definition getMultiChainBalanceTool (params : BalanceParams) : JsValue :=
  try_catch (getMultiChainBalance_try params) (getMultiChainBalance_catch params).

(** *** The six tools together *)

Inductive ToolCall : Type :=
  | CallContract (params : CallContractParams)
  | SimulateTransaction (params : SimulateParams)
  | BuildTransaction (params : BuildParams)
  | GetAaveData (params : AaveParams)
  | GetUniswapPool (params : UniswapParams)
  | GetMultiChainBalance (params : BalanceParams).

(** The [try] block of the tool. *)
Definition attempt (c : ToolCall) : Outcome JsValue :=
  match c with
  | CallContract p => callContract_try p
  | SimulateTransaction p => simulateTransaction_try p
  | BuildTransaction p => buildTransaction_try p
  | GetAaveData p => getAaveData_try p
  | GetUniswapPool p => getUniswapPool_try p
  | GetMultiChainBalance p => getMultiChainBalance_try p
  end.

(** What the tool hands back to its caller. *)
Definition run (c : ToolCall) : JsValue :=
  match c with
  | CallContract p => callContract p
  | SimulateTransaction p => simulateTransactionTool p
  | BuildTransaction p => buildTransactionTool p
  | GetAaveData p => getAaveDataTool p
  | GetUniswapPool p => getUniswapPoolTool p
  | GetMultiChainBalance p => getMultiChainBalanceTool p
  end.

End Tools.

(** The chain named in the input, for the tools that take one. *)
Definition input_chain (c : ToolCall) : option ChainName :=
  match c with
  | CallContract p => Some (cc_chain p)
  | SimulateTransaction p => Some (sim_chain p)
  | BuildTransaction p => Some (bt_chain p)
  | GetAaveData p => Some (aave_chain p)
  | GetUniswapPool p => Some (uni_chain p)
  | GetMultiChainBalance _ => None
  end.

End BlockchainTools.

(** ** Vocabulary of the statements *)

Module CoordinatorSpec.
Import Coordinator.

(** The queue of a recipient, empty when the recipient has none. *)
Definition mailbox (s : Service) (r : string) : list AgentMessage :=
  default [] (messages s !! r).

(** A JavaScript [Map] holds a key at most once. *)
Definition distinct_ids (s : Service) : Prop := NoDup (JsMap.keys (agents s)).

(** The matching agents of a registry in the order [discoverAgents]
    returns them. *)
Definition discovered (tag : string) (registry : list (string * RegisteredAgent))
    : list RegisteredAgent :=
  Array_sort (by_key_desc reputation)
    (filter (λ a, hasCapability tag a) (JsMap.values registry)).

(** The first step, if any, whose tag no registered agent carries. *)
Fixpoint unmatched (registry : list (string * RegisteredAgent)) (todo : list Step)
    : option Step :=
  match todo with
  | [] => None
  | step :: rest =>
      match discovered (agentCapability step) registry with
      | [] => Some step
      | _ :: _ => unmatched registry rest
      end
  end.

(** Some registered agent carries the tag of the step. *)
Definition matched (registry : list (string * RegisteredAgent)) (step : Step) : Prop :=
  discovered (agentCapability step) registry ≠ [].

(** [Math.max(0, Math.min(200, r))] *)
Definition clamp (r : Z) : Z := Z.max 0 (Z.min 200 r).

(** Property [k] of the payload of a message. *)
Definition field_of_payload (k : string) (msg : AgentMessage) : option JsValue :=
  match m_payload msg with
  | JsObject fields => JsMap.get k fields
  | _ => None
  end.

(** An argument of an optional parameter was passed in the call. *)
Definition provided (v : JsValue) : Prop := v ≠ JsUndefined.

Section Host.
Variable randomUUID : nat → string.
Variable clock : nat → Z.

(** [sendMessage] called on each message of a list in turn. *)
Fixpoint sendAll (msgs : list MessageInput) : M () :=
  match msgs with
  | [] => mret ()
  | m :: rest => sendMessage clock m;; sendAll rest
  end.

(** The messages as [sendMessage] stamps them when the first call makes
    clock reading number [c]. *)
Definition stamped (c : nat) (msgs : list MessageInput) : list AgentMessage :=
  imap (λ i m, stamp m (clock (c + i)%nat)) msgs.

(** The record [registerAgent] stores when it makes clock readings
    number [c] and [c + 1]. *)
Definition registered (c : nat) (agent : AgentDescriptor) : RegisteredAgent :=
  {| a_id := d_id agent; a_name := d_name agent; a_endpoint := d_endpoint agent;
     a_capabilities := d_capabilities agent;
     registeredAt := clock c; lastSeen := clock (S c); reputation := 100 |}.

(** The record a workflow step stores for its best agent when it draws
    identifier number [u]. *)
Definition step_delegation (name : string) (u : nat) (step : Step)
    (best : RegisteredAgent) : TaskDelegation :=
  {| taskId := randomUUID u; fromAgent := "coordinator"; toAgent := a_id best;
     task := {| t_type := agentCapability step;
                t_description := "Workflow step: " +:+ name;
                t_parameters := step_task step |};
     status := Pending; result := JsUndefined; error := None |}.

(** The message that step leaves in the mailbox of its best agent. *)
Definition step_message (name : string) (u c : nat) (step : Step)
    (best : RegisteredAgent) : AgentMessage :=
  {| m_from := "coordinator"; m_to := a_id best; m_type := MsgDelegation;
     m_payload := JsObject [("taskId", JsString (randomUUID u));
                            ("task", js_of_task (task (step_delegation name u step best)))];
     timestamp := clock c; m_signature := None |}.

Definition step_result (name : string) (u : nat) (step : Step)
    (best : RegisteredAgent) : StepResult :=
  {| r_step := agentCapability step; r_agent := a_name best;
     r_result := step_delegation name u step best |}.

(** The steps a workflow gets through, each with its best agent: all of
    them, or those in front of the first unmatched one. *)
Fixpoint served (registry : list (string * RegisteredAgent)) (todo : list Step)
    : list (Step * RegisteredAgent) :=
  match todo with
  | [] => []
  | step :: rest =>
      match discovered (agentCapability step) registry with
      | [] => []
      | best :: _ => (step, best) :: served registry rest
      end
  end.

(** What a workflow returns, stores and sends for the steps it gets
    through, when it starts at identifier number [u] and clock reading
    number [c]. *)
Definition workflow_results (name : string) (u : nat)
    (sv : list (Step * RegisteredAgent)) : list StepResult :=
  imap (λ i p, step_result name (u + i) p.1 p.2) sv.

Definition workflow_delegations (name : string) (u : nat)
    (sv : list (Step * RegisteredAgent)) : list TaskDelegation :=
  imap (λ i p, step_delegation name (u + i) p.1 p.2) sv.

Definition workflow_messages (name : string) (u c : nat)
    (sv : list (Step * RegisteredAgent)) : list AgentMessage :=
  imap (λ i p, step_message name (u + i) (c + i) p.1 p.2) sv.

Definition after_workflow (name : string) (sv : list (Step * RegisteredAgent))
    (s : Service) : Service :=
  {| agents := agents s;
     messages := foldl (λ acc msg, deliver msg acc) (messages s)
                       (workflow_messages name (uuidCalls s) (clockCalls s) sv);
     delegations := foldl (λ acc d, <[taskId d := d]> acc) (delegations s)
                          (workflow_delegations name (uuidCalls s) sv);
     uuidCalls := uuidCalls s + length sv;
     clockCalls := clockCalls s + length sv |}.

(** The record [delegateTask] stores when it draws identifier number [u],
    and the message it sends at time [t]. *)
Definition delegated (d : DelegationInput) (u : nat) : TaskDelegation :=
  {| taskId := randomUUID u; fromAgent := i_fromAgent d; toAgent := i_toAgent d;
     task := i_task d; status := Pending; result := i_result d; error := i_error d |}.

Definition delegation_message (d : DelegationInput) (u : nat) (t : Z) : AgentMessage :=
  {| m_from := i_fromAgent d; m_to := i_toAgent d; m_type := MsgDelegation;
     m_payload := JsObject [("taskId", JsString (randomUUID u));
                            ("task", js_of_task (i_task d))];
     timestamp := t; m_signature := None |}.

(** The record [updateDelegation] stores back. *)
Definition updated (d : TaskDelegation) (st : Status) (res : JsValue)
    (err : option string) : TaskDelegation :=
  {| taskId := taskId d; fromAgent := fromAgent d; toAgent := toAgent d;
     task := task d; status := st;
     result := if truthy res then res else result d;
     error := if truthy (js_of_opt_string err) then err else error d |}.

(** The response [updateDelegation] sends to the originator. *)
Definition response_message (d : TaskDelegation) (id : string) (st : Status)
    (res : JsValue) (err : option string) (t : Z) : AgentMessage :=
  {| m_from := toAgent d; m_to := fromAgent d; m_type := MsgResponse;
     m_payload := JsObject [("taskId", JsString id);
                            ("status", JsString (status_string st));
                            ("result", res);
                            ("error", js_of_opt_string err)];
     timestamp := t; m_signature := None |}.
End Host.

(** *** A small network, for concrete instances *)

Definition demo_uuid (n : nat) : string := "task-" +:+ pretty n.
Definition demo_clock (n : nat) : Z := 1700000000000 + Z.of_nat n.

Definition yield_capability : AgentCapability :=
  {| cap_id := "cap-1"; cap_name := "Yield analysis";
     cap_description := "Ranks lending pools by yield";
     chains := ["base"]; protocols := ["aave"]; operations := ["yield-analysis"] |}.

Definition yield_agent : AgentDescriptor :=
  {| d_id := "yield-1"; d_name := "Yield Scout";
     d_endpoint := "https://yield.example/a2a"; d_capabilities := [yield_capability] |}.

Definition yield_agent_again : AgentDescriptor :=
  {| d_id := "yield-1"; d_name := "Yield Scout v2";
     d_endpoint := "https://yield.example/v2"; d_capabilities := [] |}.

Definition demo_service : Service := (registerAgent demo_clock yield_agent initial).2.

Definition demo_request : DelegationInput :=
  {| i_fromAgent := "planner"; i_toAgent := "yield-1";
     i_task := {| t_type := "yield-analysis"; t_description := "Best USDC pool";
                  t_parameters := JsObject [("asset", JsString "USDC")] |};
     i_result := JsUndefined; i_error := None |}.

Definition hello (recipient : string) (text : string) : MessageInput :=
  {| i_from := "planner"; i_to := recipient; i_type := MsgRequest;
     i_payload := JsString text; i_signature := None |}.

Definition lending_capability : AgentCapability :=
  {| cap_id := "cap-2"; cap_name := "Lending desk";
     cap_description := "Supplies and borrows on lending markets";
     chains := ["base"; "optimism"]; protocols := ["aave"; "compound"];
     operations := ["supply"; "borrow"] |}.

Definition lending_agent : AgentDescriptor :=
  {| d_id := "lend-7"; d_name := "Lending Desk";
     d_endpoint := "https://lend.example/a2a"; d_capabilities := [lending_capability] |}.

Definition swap_agent : AgentDescriptor :=
  {| d_id := "swap-3"; d_name := "Swap Router";
     d_endpoint := "https://swap.example/a2a";
     d_capabilities := [{| cap_id := "cap-3"; cap_name := "Swaps";
                           cap_description := "Routes token swaps";
                           chains := ["base"]; protocols := ["uniswap"];
                           operations := ["swap"] |}] |}.

(** Three agents registered in the order yield-1, lend-7, swap-3, then
    lend-7 promoted by 50. *)
Definition demo_network : Service :=
  (updateReputation demo_clock "lend-7" 50
     (registerAgent demo_clock swap_agent
        (registerAgent demo_clock lending_agent demo_service).2).2).2.

Definition yield_step : Step :=
  {| agentCapability := "yield-analysis"; step_task := JsObject [("asset", JsString "USDC")] |}.

Definition bridge_step : Step :=
  {| agentCapability := "bridge"; step_task := JsNull |}.

End CoordinatorSpec.

Module ToolsSpec.
Import BlockchainTools.

(** The failure envelope [{success: false, error, chain, ...}]. *)
Definition uniform_failure (chain : ChainName) (message : string) (v : JsValue) : Prop :=
  field "success" v = Some (JsBool false) ∧
  field "error" v = Some (JsString message) ∧
  field "chain" v = Some (JsString (chain_key chain)).

(** *** A runtime for concrete instances: Arbitrum is unreachable, the
    ABI knows only [transfer], and the parser of human-readable fragments,
    like viem's, writes tuples as [(...)] and rejects the spelling
    [tuple(...)]. *)

Definition demo_reserve : ReserveData :=
  {| currentLiquidityRate := 5 * 10 ^ 25;
     currentVariableBorrowRate := 725 * 10 ^ 23;
     lastUpdateTimestamp := 1700000000;
     aTokenAddress := "0x4e65fE4DbA92790696d040ac24Aa414708F5c0AB" |}.

Definition demo_runtime : Runtime :=
  {| chain_id := λ c, match c with
                      | base => 8453 | mainnet => 1 | arbitrum => 42161
                      | optimism => 10 | polygon => 137
                      end;
     readContract := λ c _ _ _ _,
       match c with arbitrum => Thrown "HTTP request failed." | _ => Returned (JsString "1000000") end;
     read_balanceOf := λ c _ _,
       match c with
       | arbitrum => Thrown "HTTP request failed."
       | base => Returned 2500000
       | _ => Returned 0
       end;
     read_getReserveData := λ c _ _,
       match c with arbitrum => Thrown "HTTP request failed." | _ => Returned demo_reserve end;
     read_token0 := λ _ _, Returned "0x4200000000000000000000000000000000000006";
     read_token1 := λ _ _, Returned "0x833589fCD6eDb6E08f4c7C32D4f71b54bdA02913";
     read_fee := λ _ _, Returned 3000;
     read_liquidity := λ _ _, Returned 123456789;
     read_slot0 := λ _ _, Returned (79228162514264337593543950336, 0);
     client_call := λ _ _ _ _ _, Returned None;
     estimateGas := λ _ _ _ _ _, Returned 21000;
     encodeFunctionData := λ _ fn _,
       if String.eqb fn "transfer" then Returned "0xa9059cbb"
       else Thrown "Function not found on ABI.";
     parseAbi := λ fragments,
       if existsb (λ fragment, match String.index 0 "tuple(" fragment with
                               | Some _ => true
                               | None => false
                               end) fragments
       then Thrown "Invalid ABI parameter."
       else Returned [];
     BigInt := λ v, if String.eqb v "1000" then Returned 1000
                    else Thrown "Cannot convert to a BigInt";
     Number_toString := λ _, "0.3";
     Date_toISOString := λ _, Returned "2023-11-14T22:13:20.000Z";
     settles_first := 0 |}.

Definition demo_build : BuildParams :=
  {| bt_chain := base; bt_contractAddress := "0x833589fCD6eDb6E08f4c7C32D4f71b54bdA02913";
     bt_functionName := "mint"; bt_abi := []; bt_args := None; bt_value := None |}.

Definition demo_balances : BalanceParams :=
  {| bal_address := "0x000000000000000000000000000000000000dEaD";
     bal_tokenAddress := "0x833589fCD6eDb6E08f4c7C32D4f71b54bdA02913";
     bal_chains := [base; arbitrum; optimism] |}.

Definition demo_aave : AaveParams :=
  {| aave_chain := base; aave_asset := "0x833589fCD6eDb6E08f4c7C32D4f71b54bdA02913" |}.

End ToolsSpec.

(** ** Sequences of calls on the coordinator *)

Module CoordinatorTrace.
Import Coordinator CoordinatorSpec.

(** One call of a public method of [AgentCoordinatorService]. *)
Inductive Call : Type :=
  | RegisterAgent (agent : AgentDescriptor)
  | DiscoverAgents (capability : string)
  | SendMessage (message : MessageInput)
  | ReceiveMessages (agentId : string)
  | DelegateTask (d : DelegationInput)
  | UpdateDelegation (id : string) (st : Status) (res : JsValue) (err : option string)
  | GetDelegation (id : string)
  | ListAgents
  | UpdateReputation (agentId : string) (delta : Z) (* an integer delta *)
  | ComposeWorkflow (workflow : Workflow).

(** The calls that write to the registry of agents. *)
Definition writes_registry (c : Call) : bool :=
  match c with
  | RegisterAgent _ | UpdateReputation _ _ => true
  | _ => false
  end.

(** One update of a delegation: the status, result and error arguments. *)
Record Update : Type := {
  u_status : Status;
  u_result : JsValue;
  u_error : option string;
}.

(** Every reputation in the registry lies in [0, 200]. *)
Definition reputations_bounded (s : Service) : Prop :=
  Forall (λ kv, 0 ≤ reputation kv.2 ≤ 200) (agents s).

(** Every agent is filed under its own identifier. *)
Definition filed_by_id (s : Service) : Prop :=
  Forall (λ kv, a_id kv.2 = kv.1) (agents s).

(** Every delegation is filed under its own task identifier. *)
Definition filed_by_taskId (s : Service) : Prop :=
  ∀ k d, delegations s !! k = Some d → taskId d = k.

(** The fields of a delegation that say what was asked of whom. *)
Definition assignment (d : TaskDelegation) : string * string * string * Task :=
  (taskId d, fromAgent d, toAgent d, task d).

(** The status, result and error left by a sequence of updates. *)
Definition final_status (d : TaskDelegation) (ups : list Update) : Status :=
  foldl (λ acc u, u_status u) (status d) ups.

Definition final_result (d : TaskDelegation) (ups : list Update) : JsValue :=
  foldl (λ acc u, if truthy (u_result u) then u_result u else acc) (result d) ups.

Definition final_error (d : TaskDelegation) (ups : list Update) : option string :=
  foldl (λ acc u, if truthy (js_of_opt_string (u_error u)) then u_error u else acc)
        (error d) ups.

Section Host.
Variable randomUUID : nat → string.
Variable clock : nat → Z.

(** The clock never runs backwards. *)
Definition monotone_clock : Prop := ∀ i j, (i ≤ j)%nat → clock i ≤ clock j.

(** Mailboxes [mb] are in timestamp order and hold nothing stamped after
    clock reading number [c]. *)
Definition chronological (mb : gmap string (list AgentMessage)) (c : nat) : Prop :=
  ∀ r, StronglySorted Z.le (timestamp <$> default [] (mb !! r)) ∧
       Forall (λ m, timestamp m ≤ clock c) (default [] (mb !! r)).

(** The state a call leaves, whether it returns or throws. *)
Definition exec (c : Call) (s : Service) : Service :=
  match c with
  | RegisterAgent agent => (registerAgent clock agent s).2
  | DiscoverAgents capability => (discoverAgents capability s).2
  | SendMessage message => (sendMessage clock message s).2
  | ReceiveMessages agentId => (receiveMessages agentId s).2
  | DelegateTask d => (delegateTask randomUUID clock d s).2
  | UpdateDelegation id st res err => (updateDelegation clock id st res err s).2
  | GetDelegation id => (getDelegation id s).2
  | ListAgents => (listAgents s).2
  | UpdateReputation agentId delta => (updateReputation clock agentId delta s).2
  | ComposeWorkflow workflow => (composeWorkflow randomUUID clock workflow s).2
  end.

(** The calls of a list made one after the other. *)
Definition exec_all (calls : list Call) (s : Service) : Service :=
  foldl (λ acc c, exec c acc) s calls.

(** [updateDelegation] called for one task with each update in turn. *)
Fixpoint updateAll (id : string) (ups : list Update) : M () :=
  match ups with
  | [] => mret ()
  | u :: rest =>
      updateDelegation clock id (u_status u) (u_result u) (u_error u);;
      updateAll id rest
  end.

(** The responses those updates send when the first makes clock reading
    number [c]. *)
Definition responses (d : TaskDelegation) (id : string) (c : nat) (ups : list Update)
    : list AgentMessage :=
  imap (λ i u, response_message d id (u_status u) (u_result u) (u_error u)
                                (clock (c + i)%nat)) ups.
End Host.

End CoordinatorTrace.

(** ** The HTTP handlers (src/index.ts)

    Of the handler of [POST /api/token-balance], the call data it sends to
    the token contract.  A string is taken as its sequence of characters,
    which for the ASCII text of an address is what JavaScript indexes. *)

Module TokenBalance.
Import Stdlib.Strings.Ascii.

(** [s.slice(n)] for [n >= 0]: the string without its first [n]
    characters, empty when it has no more than [n]. *)
Fixpoint slice_from (n : nat) (s : string) : string :=
  match n, s with
  | O, _ => s
  | S n', EmptyString => EmptyString
  | S n', String _ s' => slice_from n' s'
  end.

Fixpoint repeat_char (c : Ascii.ascii) (n : nat) : string :=
  match n with
  | O => EmptyString
  | S n' => String c (repeat_char c n')
  end.

(** [s.padStart(target, c)] for a one-character filler [c]. *)
Definition padStart (target : nat) (c : Ascii.ascii) (s : string) : string :=
  repeat_char c (target - String.length s) +:+ s.

(** ['0x70a08231' + address.slice(2).padStart(64, '0')] *)
Definition balanceOf_calldata (address : string) : string :=
  "0x70a08231" +:+ padStart 64 "0"%char (slice_from 2 address).

End TokenBalance.

(** * Properties *)

(** ** The stable sort, for a comparator [b.key - a.key] *)

Section SortDescending.
Context {A : Type} (key : A → Z).

Lemma sort_insert_perm (cmp : A → A → Z) x l : sort_insert cmp x l ≡ₚ x :: l.
Proof.
  induction l as [|y l IH]; simpl; [done|].
  destruct (cmp x y <=? 0); [done|].
  rewrite IH. apply Permutation_swap.
Qed.

Lemma Array_sort_perm (cmp : A → A → Z) l : Array_sort cmp l ≡ₚ l.
Proof.
  induction l as [|x l IH]; simpl; [done|].
  by rewrite sort_insert_perm, IH.
Qed.

Lemma sort_insert_sorted x l :
  StronglySorted (λ a b, key b ≤ key a) l →
  StronglySorted (λ a b, key b ≤ key a) (sort_insert (by_key_desc key) x l).
Proof.
  induction 1 as [|y l Hl IH Hy]; simpl.
  - repeat constructor.
  - unfold by_key_desc at 1. destruct (Z.leb_spec (key y - key x) 0) as [Hle|Hgt].
    + constructor; [by constructor|].
      constructor; [lia|].
      eapply Forall_impl; [exact Hy|]. simpl. intros; lia.
    + constructor; [exact IH|].
      rewrite sort_insert_perm. constructor; [lia | exact Hy].
Qed.

Lemma Array_sort_sorted l :
  StronglySorted (λ a b, key b ≤ key a) (Array_sort (by_key_desc key) l).
Proof.
  induction l as [|x l IH]; simpl; [constructor|].
  by apply sort_insert_sorted.
Qed.

(** Stability: the elements of one key keep their relative order. *)
Lemma sort_insert_stable v x l :
  filter (λ a, key a = v) (sort_insert (by_key_desc key) x l)
  = filter (λ a, key a = v) (x :: l).
Proof.
  induction l as [|y l IH]; simpl; [done|].
  unfold by_key_desc at 1. destruct (Z.leb_spec (key y - key x) 0) as [Hle|Hgt]; [done|].
  rewrite (filter_cons _ y), IH, !filter_cons.
  repeat case_decide; try done; lia.
Qed.

Lemma Array_sort_stable v l :
  filter (λ a, key a = v) (Array_sort (by_key_desc key) l) = filter (λ a, key a = v) l.
Proof.
  induction l as [|x l IH]; simpl; [done|].
  by rewrite sort_insert_stable, !filter_cons, IH.
Qed.
End SortDescending.

Lemma foldl_push_filter {A} (p : A → bool) (l acc : list A) :
  foldl (λ acc x, if p x then acc ++ [x] else acc) acc l = acc ++ filter (λ x, p x) l.
Proof.
  revert acc. induction l as [|x l IH]; intros acc; simpl.
  - by rewrite app_nil_r.
  - rewrite IH, filter_cons. destruct (p x); simpl.
    + by rewrite <- app_assoc.
    + done.
Qed.

Lemma includes_elem_of l s : includes l s = true ↔ s ∈ l.
Proof.
  unfold includes. rewrite existsb_exists. split.
  - intros (x & Hx & Heq). apply String.eqb_eq in Heq. subst. by apply list_elem_of_In.
  - intros H. exists s. split; [by apply list_elem_of_In | apply String.eqb_refl].
Qed.

(** ** Insertion-ordered maps *)

Section JsMapFacts.
Context {V : Type}.
Implicit Types m : list (string * V).

Lemma get_set_eq k v m : JsMap.get k (JsMap.set k v m) = Some v.
Proof.
  induction m as [|[k' v'] m IH]; simpl.
  - by rewrite String.eqb_refl.
  - destruct (String.eqb_spec k k') as [->|Hne]; simpl.
    + by rewrite String.eqb_refl.
    + destruct (String.eqb_spec k k'); [done | exact IH].
Qed.

Lemma get_set_ne k k' v m : k ≠ k' → JsMap.get k' (JsMap.set k v m) = JsMap.get k' m.
Proof.
  intros Hne. induction m as [|[k0 v0] m IH]; simpl.
  - destruct (String.eqb_spec k' k); [congruence | done].
  - destruct (String.eqb_spec k k0) as [->|Hk]; simpl.
    + destruct (String.eqb_spec k' k0); [congruence | done].
    + destruct (String.eqb_spec k' k0); [done | exact IH].
Qed.

Lemma get_None_keys k m : JsMap.get k m = None ↔ k ∉ JsMap.keys m.
Proof.
  unfold JsMap.keys. induction m as [|[k' v'] m IH]; simpl.
  - split; [intros _; apply not_elem_of_nil | done].
  - rewrite not_elem_of_cons. destruct (String.eqb_spec k k') as [->|Hne].
    + split; [done | intros [? _]; done].
    + rewrite IH. tauto.
Qed.

(** [set] overwrites in place on a key that is present, and appends
    otherwise. *)
Lemma keys_set k v m :
  JsMap.keys (JsMap.set k v m)
  = match JsMap.get k m with
    | Some _ => JsMap.keys m
    | None => JsMap.keys m ++ [k]
    end.
Proof.
  unfold JsMap.keys. induction m as [|[k' v'] m IH]; [done|].
  cbn [JsMap.set JsMap.get].
  destruct (String.eqb_spec k k') as [->|Hne]; rewrite !fmap_cons; cbn [fst]; [done|].
  rewrite IH. by destruct (JsMap.get k m).
Qed.

Lemma NoDup_keys_set k v m : NoDup (JsMap.keys m) → NoDup (JsMap.keys (JsMap.set k v m)).
Proof.
  intros Hnd. rewrite keys_set. destruct (JsMap.get k m) eqn:Hget; [done|].
  apply NoDup_app. split_and!; [done | | apply NoDup_singleton].
  intros x Hx Hx'. apply list_elem_of_singleton in Hx'. subst.
  by apply get_None_keys in Hget.
Qed.

Lemma no_entry_without_key k m :
  k ∉ JsMap.keys m → filter (λ kv, kv.1 = k) m = [].
Proof.
  unfold JsMap.keys. induction m as [|[k' v'] m IH]; [done|].
  rewrite fmap_cons, not_elem_of_cons, filter_cons. cbn [fst]. intros [Hne Hnotin].
  rewrite decide_False by congruence. by apply IH.
Qed.

(** With distinct keys, exactly one entry carries a key that is bound. *)
Lemma one_entry_per_key k m :
  NoDup (JsMap.keys m) → is_Some (JsMap.get k m) →
  length (filter (λ kv, kv.1 = k) m) = 1%nat.
Proof.
  unfold JsMap.keys. induction m as [|[k' v'] m IH].
  - by intros _ [? ?].
  - rewrite fmap_cons, NoDup_cons, filter_cons. cbn [fst JsMap.get].
    intros [Hnotin Hnd] Hsome.
    destruct (String.eqb_spec k k') as [->|Hne].
    + rewrite decide_True by done. by rewrite no_entry_without_key.
    + rewrite decide_False by congruence. by apply IH.
Qed.
End JsMapFacts.

(** ** The agent coordinator *)

Module CoordinatorProps.
Import Coordinator CoordinatorSpec.

Lemma hasCapability_has_tag tag agent :
  hasCapability tag agent = true ↔ has_tag tag agent.
Proof.
  unfold hasCapability, has_tag. rewrite existsb_exists. split.
  - intros (cap & Hin & H). exists cap. split; [by apply list_elem_of_In|].
    rewrite !orb_true_iff, !includes_elem_of in H. tauto.
  - intros (cap & Hin & H). exists cap. split; [by apply list_elem_of_In|].
    rewrite !orb_true_iff, !includes_elem_of. tauto.
Qed.

Lemma discoverAgents_run tag s :
  discoverAgents tag s = (Returned (discovered tag (agents s)), s).
Proof.
  unfold discoverAgents, discovered, mbind, M_bind, getService, mret, M_ret.
  by rewrite foldl_push_filter.
Qed.

(** C1: [discoverAgents tag] returns, without changing the state, the
    registered agents that carry the tag in the operations, protocols or
    chains of some capability, each as often as the store holds it, in
    descending order of reputation, agents of equal reputation in the
    iteration (insertion) order of the store. *)
Theorem discoverAgents_spec (tag : string) (s : Service) :
  ∃ found,
    discoverAgents tag s = (Returned found, s) ∧
    (∀ a, a ∈ found ↔ a ∈ JsMap.values (agents s) ∧ has_tag tag a) ∧
    found ≡ₚ filter (λ a, hasCapability tag a) (JsMap.values (agents s)) ∧
    StronglySorted (λ a b, reputation b ≤ reputation a) found ∧
    (∀ v, filter (λ a, reputation a = v) found
          = filter (λ a, reputation a = v)
              (filter (λ a, hasCapability tag a) (JsMap.values (agents s)))).
Proof.
  exists (discovered tag (agents s)). split; [apply discoverAgents_run|].
  unfold discovered. split_and!.
  - intros a. rewrite Array_sort_perm, list_elem_of_filter, <- hasCapability_has_tag.
    rewrite Is_true_true. tauto.
  - apply Array_sort_perm.
  - apply Array_sort_sorted.
  - intros v. apply Array_sort_stable.
Qed.

(** *** Mailboxes *)

Lemma lookup_deliver msg (mb : gmap string (list AgentMessage)) r :
  default [] (deliver msg mb !! r)
  = default [] (mb !! r) ++ (if decide (m_to msg = r) then [msg] else []).
Proof.
  unfold deliver. case_decide as Hto.
  - subst. by rewrite lookup_insert_eq.
  - rewrite lookup_insert_ne by done. by rewrite app_nil_r.
Qed.

Lemma lookup_foldl_deliver msgs (mb : gmap string (list AgentMessage)) r :
  default [] (foldl (λ acc msg, deliver msg acc) mb msgs !! r)
  = default [] (mb !! r) ++ filter (λ m, m_to m = r) msgs.
Proof.
  revert mb. induction msgs as [|msg msgs IH]; intros mb; simpl.
  - by rewrite app_nil_r.
  - rewrite IH, lookup_deliver, filter_cons, <- app_assoc. by case_decide.
Qed.

Section Host.
Variable randomUUID : nat → string.
Variable clock : nat → Z.

Lemma sendMessage_run m s :
  sendMessage clock m s
  = (Returned (),
     {| agents := agents s;
        messages := deliver (stamp m (clock (clockCalls s))) (messages s);
        delegations := delegations s;
        uuidCalls := uuidCalls s; clockCalls := S (clockCalls s) |}).
Proof. reflexivity. Qed.

Lemma receiveMessages_run r s :
  receiveMessages r s = (Returned (mailbox s r), with_messages (delete r) s).
Proof. reflexivity. Qed.

Lemma stamped_cons c m msgs :
  stamped clock c (m :: msgs) = stamp m (clock c) :: stamped clock (S c) msgs.
Proof.
  unfold stamped. rewrite imap_cons, Nat.add_0_r. f_equal.
  apply imap_ext. intros i x _. simpl. f_equal. f_equal. lia.
Qed.

Lemma filter_stamped_all r c msgs :
  Forall (λ m, i_to m = r) msgs →
  filter (λ m, m_to m = r) (stamped clock c msgs) = stamped clock c msgs.
Proof.
  intros Hall. revert c. induction Hall as [|m l Hm Hall IH]; intros c; [done|].
  rewrite stamped_cons, filter_cons_True by done. by rewrite IH.
Qed.

Lemma sendAll_run msgs s :
  ∃ s1, sendAll clock msgs s = (Returned (), s1) ∧
        agents s1 = agents s ∧ delegations s1 = delegations s ∧
        ∀ r, mailbox s1 r
             = mailbox s r ++ filter (λ m, m_to m = r) (stamped clock (clockCalls s) msgs).
Proof.
  revert s. induction msgs as [|m msgs IH]; intros s.
  - exists s. split_and!; try done. intros r. by rewrite app_nil_r.
  - cbn [sendAll]. unfold mbind, M_bind. rewrite sendMessage_run.
    destruct (IH {| agents := agents s;
                    messages := deliver (stamp m (clock (clockCalls s))) (messages s);
                    delegations := delegations s;
                    uuidCalls := uuidCalls s; clockCalls := S (clockCalls s) |})
      as (s1 & Hrun & Hag & Hdel & Hmb).
    exists s1. split_and!; try done. intros r. rewrite Hmb, stamped_cons, filter_cons.
    unfold mailbox at 1. cbn [messages clockCalls]. rewrite lookup_deliver.
    rewrite <- app_assoc. cbn [m_to stamp]. by case_decide.
Qed.

(** C5: after any sequence of [sendMessage] calls, [receiveMessages r]
    returns what the mailbox of [r] already held followed by the
    messages of the sequence addressed to [r], in send order: each with
    the sender, recipient, type, payload and signature it was sent with,
    and with the clock reading of its own [sendMessage] call as timestamp.
    These are exactly the messages sent when the mailbox was empty and all
    go to [r].  A second [receiveMessages r] right after returns the empty
    list, and so does [receiveMessages] for an agent without a mailbox. *)
Theorem send_then_receive (s : Service) (msgs : list MessageInput) (r : string) :
  ∃ s1 s2 s3,
    sendAll clock msgs s = (Returned (), s1) ∧
    receiveMessages r s1
    = (Returned
         (mailbox s r
          ++ filter (λ m, m_to m = r)
               (imap (λ i m, {| m_from := i_from m; m_to := i_to m; m_type := i_type m;
                                m_payload := i_payload m;
                                timestamp := clock (clockCalls s + i)%nat;
                                m_signature := i_signature m |}) msgs)), s2) ∧
    (mailbox s r = [] → Forall (λ m, i_to m = r) msgs →
     receiveMessages r s1
     = (Returned
          (imap (λ i m, {| m_from := i_from m; m_to := r; m_type := i_type m;
                           m_payload := i_payload m;
                           timestamp := clock (clockCalls s + i)%nat;
                           m_signature := i_signature m |}) msgs), s2)) ∧
    receiveMessages r s2 = (Returned [], s3) ∧
    (messages s !! r = None → ∃ s', receiveMessages r s = (Returned [], s')).
Proof.
  destruct (sendAll_run msgs s) as (s1 & Hrun & _ & _ & Hmb).
  exists s1, (with_messages (delete r) s1),
         (with_messages (delete r) (with_messages (delete r) s1)).
  split_and!.
  - exact Hrun.
  - rewrite receiveMessages_run, Hmb. reflexivity.
  - intros Hempty Hall. rewrite receiveMessages_run, Hmb, Hempty. simpl.
    rewrite filter_stamped_all by done. do 2 f_equal.
    apply imap_ext. intros i m Hm. cbn. unfold stamp. f_equal.
    rewrite Forall_forall in Hall. apply Hall. by eapply list_elem_of_lookup_2.
  - rewrite receiveMessages_run. f_equal. unfold mailbox, with_messages. simpl.
    by rewrite lookup_delete_eq.
  - intros Hnone. eexists. rewrite receiveMessages_run. unfold mailbox. by rewrite Hnone.
Qed.

(** *** Registration and reputation *)

Lemma registerAgent_run d s :
  registerAgent clock d s
  = (Returned (registered clock (clockCalls s) d),
     {| agents := JsMap.set (d_id d) (registered clock (clockCalls s) d) (agents s);
        messages := messages s; delegations := delegations s;
        uuidCalls := uuidCalls s; clockCalls := S (S (clockCalls s)) |}).
Proof. reflexivity. Qed.

Lemma registerAgent_distinct_ids d s :
  distinct_ids s → distinct_ids (registerAgent clock d s).2.
Proof. rewrite registerAgent_run. apply NoDup_keys_set. Qed.

(** C7: registering twice under one identifier never throws and leaves
    exactly one entry for it, at the place the first registration took:
    the second call's name, endpoint and capabilities, stamped with the
    two clock readings of the second call, with reputation 100, and with
    nothing of the first call's input in it. *)
Theorem registerAgent_twice (s : Service) (d1 d2 : AgentDescriptor) :
  distinct_ids s → d_id d1 = d_id d2 →
  ∃ r1 r2 s1 s2,
    registerAgent clock d1 s = (Returned r1, s1) ∧
    registerAgent clock d2 s1 = (Returned r2, s2) ∧
    r2 = {| a_id := d_id d2; a_name := d_name d2; a_endpoint := d_endpoint d2;
            a_capabilities := d_capabilities d2;
            registeredAt := clock (clockCalls s1);
            lastSeen := clock (S (clockCalls s1));
            reputation := 100 |} ∧
    JsMap.get (d_id d2) (agents s2) = Some r2 ∧
    length (filter (λ kv, kv.1 = d_id d2) (agents s2)) = 1%nat ∧
    JsMap.keys (agents s2) = JsMap.keys (agents s1).
Proof.
  intros Hnd Hid. do 4 eexists. rewrite !registerAgent_run.
  split_and!; try reflexivity; cbn [agents clockCalls].
  - apply get_set_eq.
  - apply one_entry_per_key.
    + by do 2 apply NoDup_keys_set.
    + rewrite get_set_eq. by eexists.
  - rewrite keys_set, Hid, get_set_eq. done.
Qed.

Lemma updateReputation_found id delta s agent :
  JsMap.get id (agents s) = Some agent →
  updateReputation clock id delta s
  = (Returned (),
     {| agents :=
          JsMap.set id
            {| a_id := a_id agent; a_name := a_name agent; a_endpoint := a_endpoint agent;
               a_capabilities := a_capabilities agent; registeredAt := registeredAt agent;
               lastSeen := clock (clockCalls s);
               reputation := clamp (reputation agent + delta) |}
            (agents s);
        messages := messages s; delegations := delegations s;
        uuidCalls := uuidCalls s; clockCalls := S (clockCalls s) |}).
Proof.
  intros Hget. unfold updateReputation, mbind, M_bind, getService. by rewrite Hget.
Qed.

Lemma updateReputation_missing id delta s :
  JsMap.get id (agents s) = None →
  updateReputation clock id delta s = (Thrown ("Agent not found: " +:+ id), s).
Proof.
  intros Hget. unfold updateReputation, mbind, M_bind, getService. by rewrite Hget.
Qed.

(** C6: on a registered agent [updateReputation] stores
    [clamp (reputation + delta) 0 200] and the clock reading of the call
    as [lastSeen], touching nothing else; from a reputation within
    [0, 200] a delta of +500 gives 200 and a delta of -500 gives 0.  On
    an unknown identifier it throws "Agent not found" and changes
    nothing. *)
Theorem updateReputation_spec (s : Service) (id : string) (delta : Z) :
  (∀ agent, JsMap.get id (agents s) = Some agent →
     ∃ s' agent',
       updateReputation clock id delta s = (Returned (), s') ∧
       JsMap.get id (agents s') = Some agent' ∧
       reputation agent' = Z.max 0 (Z.min 200 (reputation agent + delta)) ∧
       lastSeen agent' = clock (clockCalls s) ∧
       (a_id agent', a_name agent', a_endpoint agent', a_capabilities agent',
        registeredAt agent')
       = (a_id agent, a_name agent, a_endpoint agent, a_capabilities agent,
          registeredAt agent) ∧
       (∀ other, other ≠ id → JsMap.get other (agents s') = JsMap.get other (agents s)) ∧
       JsMap.keys (agents s') = JsMap.keys (agents s) ∧
       messages s' = messages s ∧ delegations s' = delegations s ∧
       (0 ≤ reputation agent ≤ 200 →
        (delta = 500 → reputation agent' = 200) ∧
        (delta = -500 → reputation agent' = 0))) ∧
  (JsMap.get id (agents s) = None →
     updateReputation clock id delta s = (Thrown ("Agent not found: " +:+ id), s)).
Proof.
  split; [|apply updateReputation_missing].
  intros agent Hget. rewrite (updateReputation_found _ _ _ _ Hget).
  eexists _, {| a_id := a_id agent; a_name := a_name agent; a_endpoint := a_endpoint agent;
                a_capabilities := a_capabilities agent;
                registeredAt := registeredAt agent;
                lastSeen := clock (clockCalls s);
                reputation := clamp (reputation agent + delta) |}.
  split_and!; try reflexivity; cbn [agents reputation].
  - apply get_set_eq.
  - intros other Hne. by apply get_set_ne.
  - by rewrite keys_set, Hget.
  - unfold clamp. lia.
Qed.

(** *** Delegations *)

Lemma delegateTask_run d s :
  delegateTask randomUUID clock d s
  = (Returned (delegated randomUUID d (uuidCalls s)),
     {| agents := agents s;
        messages := deliver (delegation_message randomUUID d (uuidCalls s) (clock (clockCalls s)))
                            (messages s);
        delegations := <[randomUUID (uuidCalls s) := delegated randomUUID d (uuidCalls s)]>
                         (delegations s);
        uuidCalls := S (uuidCalls s); clockCalls := S (clockCalls s) |}).
Proof. reflexivity. Qed.

Lemma updateDelegation_found id st res err s d :
  delegations s !! id = Some d →
  updateDelegation clock id st res err s
  = (Returned (),
     {| agents := agents s;
        messages := deliver (response_message d id st res err (clock (clockCalls s)))
                            (messages s);
        delegations := <[id := updated d st res err]> (delegations s);
        uuidCalls := uuidCalls s; clockCalls := S (clockCalls s) |}).
Proof.
  intros Hget. unfold updateDelegation, mbind, M_bind, getService. by rewrite Hget.
Qed.

Lemma updateDelegation_missing id st res err s :
  delegations s !! id = None →
  updateDelegation clock id st res err s = (Thrown ("Delegation not found: " +:+ id), s).
Proof.
  intros Hget. unfold updateDelegation, mbind, M_bind, getService. by rewrite Hget.
Qed.

Lemma getDelegation_run id s :
  getDelegation id s = (Returned (delegations s !! id), s).
Proof. reflexivity. Qed.

(** C2, as the code has it: [updateDelegation] throws "Delegation not
    found" on an unknown task and changes nothing; on a stored one it
    sets the status, overwrites [result] exactly when the [result]
    argument is truthy and [error] exactly when the [error] argument is
    truthy (a falsy argument leaves the field as it was), and appends to
    the originator's mailbox one [response] message from the assignee
    carrying the task identifier and the status, result and error of the
    call.  [getDelegation] right after [delegateTask] shows [pending];
    after [updateDelegation id 'completed' res] with a truthy [res] it
    shows [completed] and [res]. *)
Theorem updateDelegation_spec (s : Service) (id : string) (st : Status)
    (res : JsValue) (err : option string) :
  (delegations s !! id = None →
     updateDelegation clock id st res err s
     = (Thrown ("Delegation not found: " +:+ id), s)) ∧
  (∀ d, delegations s !! id = Some d →
     ∃ s' d',
       updateDelegation clock id st res err s = (Returned (), s') ∧
       getDelegation id s' = (Returned (Some d'), s') ∧
       status d' = st ∧
       result d' = (if truthy res then res else result d) ∧
       error d' = (if truthy (js_of_opt_string err) then err else error d) ∧
       (taskId d', fromAgent d', toAgent d', task d')
       = (taskId d, fromAgent d, toAgent d, task d) ∧
       (∀ other, other ≠ id → delegations s' !! other = delegations s !! other) ∧
       mailbox s' (fromAgent d)
       = mailbox s (fromAgent d)
         ++ [{| m_from := toAgent d; m_to := fromAgent d; m_type := MsgResponse;
                m_payload := JsObject [("taskId", JsString id);
                                       ("status", JsString (status_string st));
                                       ("result", res);
                                       ("error", js_of_opt_string err)];
                timestamp := clock (clockCalls s); m_signature := None |}] ∧
       (∀ r, r ≠ fromAgent d → mailbox s' r = mailbox s r) ∧
       agents s' = agents s) ∧
  (∀ input,
     ∃ d s1,
       delegateTask randomUUID clock input s = (Returned d, s1) ∧
       getDelegation (taskId d) s1 = (Returned (Some d), s1) ∧
       status d = Pending ∧
       (truthy res = true →
        ∃ s2 d2,
          updateDelegation clock (taskId d) Completed res None s1 = (Returned (), s2) ∧
          getDelegation (taskId d) s2 = (Returned (Some d2), s2) ∧
          status d2 = Completed ∧ result d2 = res ∧
          ∃ msg,
            mailbox s2 (i_fromAgent input) = mailbox s1 (i_fromAgent input) ++ [msg] ∧
            m_type msg = MsgResponse ∧
            field_of_payload "taskId" msg = Some (JsString (taskId d)))).
Proof.
  split_and!.
  - apply updateDelegation_missing.
  - intros d Hget. rewrite (updateDelegation_found _ _ _ _ _ _ Hget).
    eexists _, (updated d st res err). split; [reflexivity|].
    rewrite getDelegation_run. cbn [delegations agents]. rewrite lookup_insert_eq.
    split_and!; try reflexivity.
    + intros other Hne. by rewrite lookup_insert_ne.
    + unfold mailbox. cbn [messages]. rewrite lookup_deliver.
      cbn [m_to response_message]. by rewrite decide_True.
    + intros r Hne. unfold mailbox. cbn [messages]. rewrite lookup_deliver.
      cbn [m_to response_message]. rewrite decide_False by done. apply app_nil_r.
  - intros input. rewrite delegateTask_run.
    eexists (delegated randomUUID input (uuidCalls s)), _.
    split; [reflexivity|].
    rewrite getDelegation_run. cbn [delegations taskId delegated].
    rewrite lookup_insert_eq. split_and!; try reflexivity.
    intros Htruthy.
    erewrite updateDelegation_found by (cbn [delegations]; apply lookup_insert_eq).
    eexists _, (updated (delegated randomUUID input (uuidCalls s)) Completed res None).
    split; [reflexivity|].
    rewrite getDelegation_run. cbn [delegations].
    rewrite lookup_insert_eq. split_and!; try reflexivity.
    + cbn [result updated]. by rewrite Htruthy.
    + eexists. unfold mailbox. cbn [messages]. rewrite lookup_deliver.
      cbn [m_to response_message fromAgent delegated]. rewrite decide_True by done.
      split_and!; reflexivity.
Qed.

(** *** Workflows *)

Lemma workflow_results_cons name u p sv :
  workflow_results randomUUID name u (p :: sv)
  = step_result randomUUID name u p.1 p.2 :: workflow_results randomUUID name (S u) sv.
Proof.
  unfold workflow_results. rewrite imap_cons, Nat.add_0_r. f_equal.
  apply imap_ext. intros i x _. simpl. by rewrite Nat.add_succ_r.
Qed.

Lemma workflow_delegations_cons name u p sv :
  workflow_delegations randomUUID name u (p :: sv)
  = step_delegation randomUUID name u p.1 p.2
    :: workflow_delegations randomUUID name (S u) sv.
Proof.
  unfold workflow_delegations. rewrite imap_cons, Nat.add_0_r. f_equal.
  apply imap_ext. intros i x _. simpl. by rewrite Nat.add_succ_r.
Qed.

Lemma workflow_messages_cons name u c p sv :
  workflow_messages randomUUID clock name u c (p :: sv)
  = step_message randomUUID clock name u c p.1 p.2
    :: workflow_messages randomUUID clock name (S u) (S c) sv.
Proof.
  unfold workflow_messages. rewrite imap_cons, !Nat.add_0_r. f_equal.
  apply imap_ext. intros i x _. simpl. by rewrite !Nat.add_succ_r.
Qed.

Lemma after_workflow_nil name s : after_workflow randomUUID clock name [] s = s.
Proof. destruct s. unfold after_workflow. simpl. by rewrite !Nat.add_0_r. Qed.

(** The loop in closed form: what it returns or throws, and the state it
    leaves, in terms of the steps it gets through. *)
Lemma composeSteps_run name todo results s :
  composeSteps randomUUID clock name todo results s
  = (match unmatched (agents s) todo with
     | None =>
         Returned (results
                   ++ workflow_results randomUUID name (uuidCalls s) (served (agents s) todo))
     | Some step => Thrown ("No agent found with capability: " +:+ agentCapability step)
     end,
     after_workflow randomUUID clock name (served (agents s) todo) s).
Proof.
  revert results s. induction todo as [|step rest IH]; intros results s.
  - cbn [composeSteps unmatched served]. rewrite after_workflow_nil.
    unfold workflow_results. simpl. by rewrite app_nil_r.
  - cbn [composeSteps unmatched served]. unfold mbind at 1, M_bind at 1.
    rewrite discoverAgents_run.
    destruct (discovered (agentCapability step) (agents s)) as [|best others] eqn:Hfound.
    + by rewrite after_workflow_nil.
    + unfold mbind at 1, M_bind at 1. rewrite delegateTask_run, IH.
      cbn [agents uuidCalls clockCalls messages delegations].
      rewrite workflow_results_cons. f_equal.
      * destruct (unmatched (agents s) rest); [done|]. by rewrite <- app_assoc.
      * unfold after_workflow. cbn [agents uuidCalls clockCalls messages delegations].
        rewrite workflow_messages_cons, workflow_delegations_cons. cbn [foldl length].
        f_equal; lia.
Qed.

Lemma served_unmatched registry pre bad post :
  Forall (matched registry) pre →
  discovered (agentCapability bad) registry = [] →
  unmatched registry (pre ++ bad :: post) = Some bad ∧
  served registry (pre ++ bad :: post) = served registry pre.
Proof.
  intros Hpre Hbad. induction Hpre as [|step pre Hstep Hpre [IHu IHs]].
  - cbn. by rewrite Hbad.
  - cbn. unfold matched in Hstep.
    destruct (discovered (agentCapability step) registry); [done|].
    by rewrite IHu, IHs.
Qed.

Lemma served_matched registry todo :
  Forall (matched registry) todo →
  unmatched registry todo = None ∧
  length (served registry todo) = length todo ∧
  ∀ i step, todo !! i = Some step →
    ∃ best others,
      discovered (agentCapability step) registry = best :: others ∧
      served registry todo !! i = Some (step, best).
Proof.
  induction 1 as [|step0 todo Hstep Hall (IHu & IHl & IHs)].
  - split_and!; try done.
  - cbn. unfold matched in Hstep.
    destruct (discovered (agentCapability step0) registry) as [|best0 others0] eqn:Hfound;
      [done|].
    split_and!; [done | simpl; by rewrite IHl |].
    intros [|i] step Hi; simpl in Hi.
    + injection Hi as <-. exists best0, others0. by rewrite Hfound.
    + by apply IHs.
Qed.

(** A store filled by successive [set] calls: every key written holds
    what its last writer put there. *)
Lemma lookup_foldl_store_frame (ds : list TaskDelegation)
    (m : gmap string TaskDelegation) (k : string) :
  foldl (λ acc d, <[taskId d := d]> acc) m ds !! k = m !! k ∨
  ∃ j d, ds !! j = Some d ∧ taskId d = k ∧
         foldl (λ acc d, <[taskId d := d]> acc) m ds !! k = Some d.
Proof.
  revert m. induction ds as [|d0 ds IH]; intros m; [by left|]. cbn [foldl].
  destruct (IH (<[taskId d0 := d0]> m)) as [Hsame | (j & d & Hj & Hk & Hget)].
  - destruct (decide (taskId d0 = k)) as [Heq|Hne].
    + right. exists 0%nat, d0. split_and!; [done | done |].
      rewrite Hsame, <- Heq. apply lookup_insert_eq.
    + left. rewrite Hsame. by apply lookup_insert_ne.
  - right. by exists (S j), d.
Qed.

Lemma lookup_foldl_store (ds : list TaskDelegation)
    (m : gmap string TaskDelegation) (i : nat) (d : TaskDelegation) :
  ds !! i = Some d →
  ∃ j d', ds !! j = Some d' ∧ taskId d' = taskId d ∧
          foldl (λ acc d, <[taskId d := d]> acc) m ds !! taskId d = Some d'.
Proof.
  revert m i. induction ds as [|d0 ds IH]; intros m i Hi; [done|]. cbn [foldl].
  destruct i as [|i]; simpl in Hi.
  - injection Hi as ->.
    destruct (lookup_foldl_store_frame ds (<[taskId d := d]> m) (taskId d))
      as [Hsame | (j & d' & Hj & Hk & Hget)].
    + exists 0%nat, d. split_and!; [done | done |].
      rewrite Hsame. apply lookup_insert_eq.
    + by exists (S j), d'.
  - destruct (IH (<[taskId d0 := d0]> m) i Hi) as (j & d' & Hj & Hk & Hget).
    by exists (S j), d'.
Qed.

Lemma composeWorkflow_run name todo s :
  composeWorkflow randomUUID clock {| w_name := name; steps := todo |} s
  = (match unmatched (agents s) todo with
     | None => Returned (workflow_results randomUUID name (uuidCalls s)
                           (served (agents s) todo))
     | Some step => Thrown ("No agent found with capability: " +:+ agentCapability step)
     end,
     after_workflow randomUUID clock name (served (agents s) todo) s).
Proof. unfold composeWorkflow. cbn [w_name steps]. by rewrite composeSteps_run. Qed.


(** The record stored for step [i] of the served steps, identifiers
    being pairwise distinct. *)
Lemma after_workflow_stored name sv s i step best :
  (∀ a b, randomUUID a = randomUUID b → a = b) →
  sv !! i = Some (step, best) →
  delegations (after_workflow randomUUID clock name sv s) !! randomUUID (uuidCalls s + i)
  = Some (step_delegation randomUUID name (uuidCalls s + i) step best).
Proof.
  intros Hinj Hi. unfold after_workflow. cbn [delegations].
  assert (workflow_delegations randomUUID name (uuidCalls s) sv !! i
          = Some (step_delegation randomUUID name (uuidCalls s + i) step best)) as Hd.
  { unfold workflow_delegations. by rewrite list_lookup_imap, Hi. }
  destruct (lookup_foldl_store _ (delegations s) _ _ Hd) as (j & d' & Hj & Hk & Hget).
  cbn [taskId step_delegation] in Hk, Hget. rewrite Hget. f_equal.
  unfold workflow_delegations in Hj. rewrite list_lookup_imap in Hj.
  destruct (sv !! j) as [[step' best']|] eqn:Hsvj; [|done].
  simpl in Hj. injection Hj as <-. cbn [taskId step_delegation] in Hk.
  apply Hinj in Hk. assert (j = i) as -> by lia. rewrite Hi in Hsvj.
  by injection Hsvj as <- <-.
Qed.


(** C10: when a workflow throws at a step that finds no agent, every
    step in front of it has left its traces: under the identifier drawn
    for the step the store holds a [pending] delegation from the
    coordinator (the step's own record when identifiers are pairwise
    distinct), and the mailbox of the step's best agent holds the
    [delegation] message of the step.  Nothing that was in the store or
    in a mailbox before is gone, and with at least one step in front the
    mailboxes differ from those before the call: nothing is rolled
    back. *)
Theorem composeWorkflow_no_rollback (s : Service) (name : string)
    (pre : list Step) (bad : Step) (post : list Step) :
  Forall (matched (agents s)) pre →
  discovered (agentCapability bad) (agents s) = [] →
  ∃ s',
    composeWorkflow randomUUID clock {| w_name := name; steps := pre ++ bad :: post |} s
    = (Thrown ("No agent found with capability: " +:+ agentCapability bad), s') ∧
    (∀ i step, pre !! i = Some step →
       ∃ best others,
         discovered (agentCapability step) (agents s) = best :: others ∧
         (∃ d, delegations s' !! randomUUID (uuidCalls s + i) = Some d ∧
               taskId d = randomUUID (uuidCalls s + i) ∧
               status d = Pending ∧ fromAgent d = "coordinator") ∧
         ((∀ a b, randomUUID a = randomUUID b → a = b) →
          delegations s' !! randomUUID (uuidCalls s + i)
          = Some (step_delegation randomUUID name (uuidCalls s + i) step best)) ∧
         ∃ msg,
           msg ∈ mailbox s' (a_id best) ∧
           msg = {| m_from := "coordinator"; m_to := a_id best; m_type := MsgDelegation;
                    m_payload :=
                      JsObject [("taskId", JsString (randomUUID (uuidCalls s + i)));
                                ("task",
                                 js_of_task {| t_type := agentCapability step;
                                               t_description := "Workflow step: " +:+ name;
                                               t_parameters := step_task step |})];
                    timestamp := clock (clockCalls s + i); m_signature := None |}) ∧
    (∀ k, is_Some (delegations s !! k) → is_Some (delegations s' !! k)) ∧
    (∀ r msg, msg ∈ mailbox s r → msg ∈ mailbox s' r) ∧
    (pre ≠ [] → messages s' ≠ messages s).
Proof.
  intros Hpre Hbad.
  destruct (served_unmatched _ _ _ post Hpre Hbad) as [Hu Hs].
  destruct (served_matched _ _ Hpre) as (_ & Hlen & Hlookup).
  eexists. rewrite composeWorkflow_run, Hu, Hs. split; [reflexivity|].
  set (sv := served (agents s) pre) in *.
  assert (∀ r, mailbox (after_workflow randomUUID clock name sv s) r
               = mailbox s r
                 ++ filter (λ m, m_to m = r)
                      (workflow_messages randomUUID clock name
                         (uuidCalls s) (clockCalls s) sv)) as Hmb.
  { intros r. unfold mailbox, after_workflow. cbn [messages].
    apply lookup_foldl_deliver. }
  assert (∀ i step best, sv !! i = Some (step, best) →
            step_message randomUUID clock name (uuidCalls s + i) (clockCalls s + i)
                         step best
            ∈ mailbox (after_workflow randomUUID clock name sv s) (a_id best)) as Hsent.
  { intros i step best Hsv. rewrite Hmb. apply elem_of_app. right.
    apply list_elem_of_filter. split; [done|].
    apply list_elem_of_lookup. exists i.
    unfold workflow_messages. by rewrite list_lookup_imap, Hsv. }
  split_and!.
  - intros i step Hi. destruct (Hlookup i step Hi) as (best & others & Hfound & Hsv).
    exists best, others. split_and!; [done | | |].
    + assert (workflow_delegations randomUUID name (uuidCalls s) sv !! i
              = Some (step_delegation randomUUID name (uuidCalls s + i) step best)) as Hd.
      { unfold workflow_delegations. by rewrite list_lookup_imap, Hsv. }
      destruct (lookup_foldl_store _ (delegations s) _ _ Hd) as (j & d' & Hj & Hk & Hget).
      exists d'. unfold after_workflow. cbn [delegations].
      cbn [taskId step_delegation] in Hk, Hget. split_and!; [done | done | |].
      * unfold workflow_delegations in Hj. rewrite list_lookup_imap in Hj.
        destruct (sv !! j) as [[step' best']|]; [|done]. by injection Hj as <-.
      * unfold workflow_delegations in Hj. rewrite list_lookup_imap in Hj.
        destruct (sv !! j) as [[step' best']|]; [|done]. by injection Hj as <-.
    + intros Hinj. by apply after_workflow_stored.
    + eexists. split; [by apply (Hsent i step best)|]. reflexivity.
  - intros k Hsome. unfold after_workflow. cbn [delegations].
    destruct (lookup_foldl_store_frame
                (workflow_delegations randomUUID name (uuidCalls s) sv)
                (delegations s) k) as [-> | (j & d & _ & _ & ->)]; [done | by eexists].
  - intros r msg Hin. rewrite Hmb. apply elem_of_app. by left.
  - intros Hne Heq. destruct pre as [|step0 pre']; [done|].
    destruct (Hlookup 0%nat step0 eq_refl) as (best & others & Hfound & Hsv).
    pose proof (Hsent 0%nat step0 best Hsv) as Hin.
    pose proof (Hmb (a_id best)) as Hgrow. unfold mailbox at 1 2 in Hgrow.
    rewrite Heq in Hgrow.
    apply (f_equal length) in Hgrow. rewrite length_app in Hgrow.
    assert (step_message randomUUID clock name (uuidCalls s + 0) (clockCalls s + 0)
                         step0 best
            ∈ filter (λ m, m_to m = a_id best)
                (workflow_messages randomUUID clock name (uuidCalls s) (clockCalls s) sv))
      as Hin'.
    { apply list_elem_of_filter. split; [done|]. apply list_elem_of_lookup. exists 0%nat.
      unfold workflow_messages. by rewrite list_lookup_imap, Hsv. }
    destruct (filter _ _); [by apply elem_of_nil in Hin' | simpl in Hgrow; lia].
Qed.

End Host.
End CoordinatorProps.

(** *** Concrete instances *)

Module CoordinatorInstances.
Import Coordinator CoordinatorSpec CoordinatorProps.

Lemma yield_agent_registered :
  JsMap.get "yield-1" (agents demo_service) = Some (registered demo_clock 0 yield_agent).
Proof. reflexivity. Qed.

Lemma yield_step_matched : matched (agents demo_service) yield_step.
Proof. unfold matched. by vm_compute. Qed.

Lemma bridge_step_unmatched : discovered (agentCapability bridge_step) (agents demo_service) = [].
Proof. by vm_compute. Qed.

(** The agents on Base: lend-7 (150) ahead of yield-1 and swap-3 (100
    each), which keep their registration order. *)
Example discoverAgents_on_base :
  ∃ found,
    discoverAgents "base" demo_network = (Returned found, demo_network) ∧
    (a_id <$> found) = ["lend-7"; "yield-1"; "swap-3"] ∧
    (reputation <$> found) = [150; 100; 100].
Proof. eexists. split; [reflexivity|]. by vm_compute. Qed.

(** A protocol tag is found as well as an operation tag. *)
Example discoverAgents_by_protocol :
  (a_id <$> (discovered "aave" (agents demo_network))) = ["lend-7"; "yield-1"] ∧
  (a_id <$> (discovered "swap" (agents demo_network))) = ["swap-3"] ∧
  discovered "bridge" (agents demo_network) = [].
Proof. by vm_compute. Qed.

Lemma send_then_receive_witness :
  ∃ s1 s2,
    sendAll demo_clock [hello "yield-1" "ping"; hello "yield-1" "pong"] initial
    = (Returned (), s1) ∧
    receiveMessages "yield-1" s1
    = (Returned [{| m_from := "planner"; m_to := "yield-1"; m_type := MsgRequest;
                    m_payload := JsString "ping"; timestamp := 1700000000000;
                    m_signature := None |};
                 {| m_from := "planner"; m_to := "yield-1"; m_type := MsgRequest;
                    m_payload := JsString "pong"; timestamp := 1700000000001;
                    m_signature := None |}], s2).
Proof.
  destruct (send_then_receive demo_clock initial
              [hello "yield-1" "ping"; hello "yield-1" "pong"] "yield-1")
    as (s1 & s2 & s3 & Hsend & _ & Hall & _ & _).
  exists s1, s2. split; [exact Hsend|].
  apply Hall; [reflexivity | by repeat constructor].
Defined.

Lemma registerAgent_twice_witness :
  ∃ r1 r2 s1 s2,
    registerAgent demo_clock yield_agent initial = (Returned r1, s1) ∧
    registerAgent demo_clock yield_agent_again s1 = (Returned r2, s2) ∧
    r2 = {| a_id := "yield-1"; a_name := "Yield Scout v2";
            a_endpoint := "https://yield.example/v2"; a_capabilities := [];
            registeredAt := demo_clock (clockCalls s1);
            lastSeen := demo_clock (S (clockCalls s1));
            reputation := 100 |} ∧
    JsMap.get "yield-1" (agents s2) = Some r2 ∧
    length (filter (λ kv, kv.1 = "yield-1") (agents s2)) = 1%nat ∧
    JsMap.keys (agents s2) = JsMap.keys (agents s1).
Proof.
  apply (registerAgent_twice demo_clock initial yield_agent yield_agent_again).
  - apply NoDup_nil_2.
  - reflexivity.
Defined.

Lemma updateReputation_spec_witness :
  ∃ s' agent',
    updateReputation demo_clock "yield-1" 500 demo_service = (Returned (), s') ∧
    JsMap.get "yield-1" (agents s') = Some agent' ∧
    reputation agent' = 200.
Proof.
  destruct (updateReputation_spec demo_clock demo_service "yield-1" 500) as [Hfound _].
  destruct (Hfound _ yield_agent_registered)
    as (s' & agent' & Hrun & Hget & _ & _ & _ & _ & _ & _ & _ & Hclamp).
  exists s', agent'. split_and!; [exact Hrun | exact Hget |].
  apply Hclamp; [simpl; lia | reflexivity].
Defined.

Lemma updateDelegation_spec_witness :
  ∃ d s1 s2 d2,
    delegateTask demo_uuid demo_clock demo_request initial = (Returned d, s1) ∧
    updateDelegation demo_clock (taskId d) Completed (JsString "4.2%") None s1
    = (Returned (), s2) ∧
    getDelegation (taskId d) s2 = (Returned (Some d2), s2) ∧
    status d2 = Completed ∧ result d2 = JsString "4.2%".
Proof.
  destruct (updateDelegation_spec demo_uuid demo_clock initial "" Completed
              (JsString "4.2%") None) as (_ & _ & Hflow).
  destruct (Hflow demo_request) as (d & s1 & Hdel & _ & _ & Hupd).
  destruct (Hupd eq_refl) as (s2 & d2 & Hrun & Hget & Hst & Hres & _).
  by exists d, s1, s2, d2.
Defined.


Lemma composeWorkflow_no_rollback_witness :
  ∃ s' d,
    composeWorkflow demo_uuid demo_clock
      {| w_name := "rebalance"; steps := [yield_step; bridge_step] |} demo_service
    = (Thrown "No agent found with capability: bridge", s') ∧
    delegations s' !! demo_uuid 0 = Some d ∧ status d = Pending ∧
    messages s' ≠ messages demo_service.
Proof.
  destruct (composeWorkflow_no_rollback demo_uuid demo_clock demo_service "rebalance"
              [yield_step] bridge_step [])
    as (s' & Hrun & Hsteps & _ & _ & Hdiff).
  - repeat constructor. exact yield_step_matched.
  - exact bridge_step_unmatched.
  - destruct (Hsteps 0%nat yield_step eq_refl)
      as (best & others & _ & (d & Hget & _ & Hst & _) & _).
    exists s', d. split_and!; [exact Hrun | exact Hget | exact Hst |].
    by apply Hdiff.
Defined.

(** C2 as stated fails: [0] is passed as the result of a completed task,
    yet the stored delegation keeps the result it had (none), because the
    guard [if (result)] tests truthiness and not presence. *)
Lemma updateDelegation_ignores_falsy_result :
  let s1 := (delegateTask demo_uuid demo_clock demo_request initial).2 in
  let s2 := (updateDelegation demo_clock (demo_uuid 0) Completed (JsNumber 0) None s1).2 in
  provided (JsNumber 0) ∧
  ∃ d, (getDelegation (demo_uuid 0) s2).1 = Returned (Some d) ∧
       status d = Completed ∧
       result d = JsUndefined ∧
       result d ≠ JsNumber 0.
Proof.
  cbv zeta. split; [done|].
  rewrite delegateTask_run. cbn [snd].
  erewrite updateDelegation_found by (cbn [delegations uuidCalls initial]; apply lookup_insert_eq).
  rewrite getDelegation_run. cbn [fst snd delegations].
  rewrite lookup_insert_eq. eexists. split; [reflexivity|]. by split_and!.
Qed.

End CoordinatorInstances.

(** ** The blockchain tools *)

Module ToolsProps.
Import BlockchainTools ToolsSpec.

Lemma chain_key_inj c c' : chain_key c = chain_key c' → c = c'.
Proof. by destruct c, c'. Qed.

Lemma Promise_all5_rejected {A B C D E} first
    (a : Outcome A) (b : Outcome B) (c : Outcome C) (d : Outcome D) (e : Outcome E) message :
  Promise_all5 first a b c d e = Thrown message →
  message ∈ rejection a ++ rejection b ++ rejection c ++ rejection d ++ rejection e.
Proof.
  unfold Promise_all5.
  set (rejected := rejection a ++ rejection b ++ rejection c ++ rejection d ++ rejection e).
  intros Hall.
  assert (rejected ≠ [] → nth (first mod length rejected)%nat rejected "" ∈ rejected) as Hnth.
  { intros Hne. apply list_elem_of_In, nth_In, Nat.mod_upper_bound.
    by destruct rejected. }
  destruct a, b, c, d, e; try discriminate Hall;
    injection Hall as <-; apply Hnth; subst rejected; simpl; discriminate.
Qed.

Section Envelope.
Variable rt : Runtime.

(** C4, as the code has it: no tool throws; each returns an object whose
    [success] field tells whether its [try] block ran through, and in
    that case the object is the one the block built, with the input's
    chain for every tool that takes one.  When the block throws,
    [callContract], the Aave tool and the Uniswap tool return
    [{success: false, error, chain, ...}] with the message thrown (for
    Uniswap, that of one of the rejected reads); the simulation tool
    returns [{success: false, chain, simulation: {willSucceed: false,
    error}}] without a top-level [error]; the build tool returns
    [{success: false, error}] without [chain].  The [try] block of the
    multi-chain tool never throws and its object has no [chain]. *)
Theorem tools_envelope (c : ToolCall) :
  match attempt rt c with
  | Returned v =>
      run rt c = v ∧
      field "success" v = Some (JsBool true) ∧
      field "error" v = None ∧
      field "chain" v = (λ chain, JsString (chain_key chain)) <$> input_chain c
  | Thrown message =>
      field "success" (run rt c) = Some (JsBool false) ∧
      match c with
      | CallContract p =>
          uniform_failure (cc_chain p) message (run rt c) ∧
          field "contract" (run rt c) = Some (JsString (cc_contractAddress p))
      | GetAaveData p =>
          uniform_failure (aave_chain p) message (run rt c) ∧
          field "protocol" (run rt c) = Some (JsString "Aave V3")
      | GetUniswapPool p =>
          uniform_failure (uni_chain p) message (run rt c) ∧
          field "protocol" (run rt c) = Some (JsString "Uniswap V3") ∧
          message ∈ rejection (read_token0 rt (uni_chain p) (uni_poolAddress p))
                    ++ rejection (read_token1 rt (uni_chain p) (uni_poolAddress p))
                    ++ rejection (read_fee rt (uni_chain p) (uni_poolAddress p))
                    ++ rejection (read_liquidity rt (uni_chain p) (uni_poolAddress p))
                    ++ rejection (read_slot0 rt (uni_chain p) (uni_poolAddress p))
      | SimulateTransaction p =>
          field "chain" (run rt c) = Some (JsString (chain_key (sim_chain p))) ∧
          field "error" (run rt c) = None ∧
          field "simulation" (run rt c)
          = Some (JsObject [("willSucceed", JsBool false); ("error", JsString message)])
      | BuildTransaction p =>
          field "error" (run rt c) = Some (JsString message) ∧
          field "chain" (run rt c) = None
      | GetMultiChainBalance p => False
      end
  end.
Proof.
  destruct c as [p|p|p|p|p|p]; cbn [attempt run input_chain].
  - unfold callContract, callContract_try.
    destruct (readContract rt _ _ _ _ _); simpl; unfold uniform_failure; by split_and!.
  - unfold simulateTransactionTool, simulateTransaction_try.
    destruct (optional_BigInt rt (sim_value p)); simpl; [|by split_and!].
    destruct (client_call rt _ _ _ _ _); simpl; [|by split_and!].
    destruct (estimateGas rt _ _ _ _ _); simpl; by split_and!.
  - unfold buildTransactionTool, buildTransaction_try.
    destruct (encodeFunctionData rt _ _ _); simpl; by split_and!.
  - unfold getAaveDataTool, getAaveData_try.
    destruct (parseAbi rt _); simpl; unfold uniform_failure; [|by split_and!].
    destruct (read_getReserveData rt _ _ _); simpl; [|by split_and!].
    destruct (Date_toISOString rt _); simpl; by split_and!.
  - unfold getUniswapPoolTool, getUniswapPool_try.
    destruct (Promise_all5 _ _ _ _ _ _) as [[[[[token0 token1] fee] liquidity] slot0]|message]
      eqn:Hall; simpl; unfold uniform_failure; [by split_and!|].
    split_and!; try done. by eapply Promise_all5_rejected.
  - unfold getMultiChainBalanceTool, getMultiChainBalance_try. simpl. by split_and!.
Qed.

(** *** Multi-chain balances *)

Lemma get_foldl_slots (p : BalanceParams) (settled : list ChainName)
    (acc : list (string * JsValue)) (chain : ChainName) :
  JsMap.get (chain_key chain)
    (foldl (λ balances c, JsMap.set (chain_key c) (JsString (balance_slot rt p c)) balances)
           acc settled)
  = if decide (chain ∈ settled) then Some (JsString (balance_slot rt p chain))
    else JsMap.get (chain_key chain) acc.
Proof.
  revert acc. induction settled as [|c settled IH]; intros acc; cbn [foldl].
  - by rewrite decide_False by apply not_elem_of_nil.
  - rewrite IH. destruct (decide (chain ∈ settled)) as [Hin|Hnotin].
    + rewrite decide_True by (by right). done.
    + destruct (decide (c = chain)) as [->|Hne].
      * rewrite decide_True by (by left). apply get_set_eq.
      * rewrite decide_False by (intros [?|?]%elem_of_cons; congruence).
        apply get_set_ne. intros Heq. by apply chain_key_inj in Heq.
Qed.

Lemma get_fill_balances p settled chain :
  JsMap.get (chain_key chain) (fill_balances rt p settled)
  = if decide (chain ∈ settled) then Some (JsString (balance_slot rt p chain)) else None.
Proof. unfold fill_balances. by rewrite get_foldl_slots. Qed.

(** C8: the multi-chain tool always returns [success: true] with the
    address, the token and a [balances] object; for each requested chain
    the slot of the chain holds the decimal string of the balance read,
    or "Error: " followed by the message when the read of that chain
    threw, whatever the reads of the other chains did; chains that were
    not requested have no slot, and the order in which the reads settle
    does not change any slot. *)
Theorem multi_chain_partial_failure (p : BalanceParams) :
  ∃ balances,
    getMultiChainBalanceTool rt p
    = JsObject [("success", JsBool true);
                ("address", JsString (bal_address p));
                ("token", JsString (bal_tokenAddress p));
                ("balances", JsObject balances)] ∧
    (∀ chain, chain ∈ bal_chains p →
       JsMap.get (chain_key chain) balances
       = Some (JsString
                 match read_balanceOf rt chain (bal_tokenAddress p) (bal_address p) with
                 | Returned balance => pretty balance
                 | Thrown message => "Error: " +:+ message
                 end)) ∧
    (∀ chain, chain ∉ bal_chains p → JsMap.get (chain_key chain) balances = None) ∧
    (∀ settled chain, settled ≡ₚ bal_chains p →
       JsMap.get (chain_key chain) (fill_balances rt p settled)
       = JsMap.get (chain_key chain) balances).
Proof.
  exists (fill_balances rt p (bal_chains p)). split_and!.
  - reflexivity.
  - intros chain Hin. rewrite get_fill_balances, decide_True by done.
    unfold balance_slot. by destruct (read_balanceOf rt chain _ _).
  - intros chain Hnotin. by rewrite get_fill_balances, decide_False.
  - intros settled chain Hperm. rewrite !get_fill_balances.
    destruct (decide (chain ∈ settled)) as [Hin|Hnotin].
    + rewrite decide_True; [done|]. by rewrite <- Hperm.
    + rewrite decide_False; [done|]. by rewrite <- Hperm.
Qed.

(** *** The Aave reserve read *)

(** C9, as the code falls short of it: the conversion the tool is written
    to apply, [((Number(rate) / 1e27) * 100).toFixed(2) + '%'], does give
    "5.00%" for a liquidity rate of 5e25 ray; but the tool hands
    [parseAbi] a fragment that spells its return type [tuple(...)], and
    with a parser that rejects that fragment, as viem's does, every call
    ends in the [catch]: whatever the pool holds, the tool returns
    [{success: false, error, chain, protocol}] with no [data], hence no
    supply or borrow APY. *)
Theorem getAaveData_never_reports_rates (p : AaveParams) (message : string) :
  parseAbi rt [getReserveData_fragment] = Thrown message →
  apy_string rt (5 * 10 ^ 25) = "5.00%" ∧
  getAaveDataTool rt p
  = JsObject [("success", JsBool false);
              ("error", JsString message);
              ("chain", JsString (chain_key (aave_chain p)));
              ("protocol", JsString "Aave V3")] ∧
  field "data" (getAaveDataTool rt p) = None.
Proof.
  intros Hparse. split; [by vm_compute|].
  unfold getAaveDataTool, getAaveData_try. rewrite Hparse. by split.
Qed.

End Envelope.
End ToolsProps.

(** *** Concrete instances *)

Module ToolsInstances.
Import BlockchainTools ToolsSpec ToolsProps.

Lemma multi_chain_partial_failure_witness :
  ∃ balances,
    field "success" (getMultiChainBalanceTool demo_runtime demo_balances) = Some (JsBool true) ∧
    field "balances" (getMultiChainBalanceTool demo_runtime demo_balances)
    = Some (JsObject balances) ∧
    JsMap.get "base" balances = Some (JsString "2500000") ∧
    JsMap.get "arbitrum" balances = Some (JsString "Error: HTTP request failed.") ∧
    JsMap.get "optimism" balances = Some (JsString "0").
Proof.
  destruct (multi_chain_partial_failure demo_runtime demo_balances)
    as (balances & Henv & Hslots & _ & _).
  exists balances. rewrite Henv. split_and!; [reflexivity | reflexivity | | |].
  - apply (Hslots base). repeat constructor.
  - apply (Hslots arbitrum). repeat constructor.
  - apply (Hslots optimism). repeat constructor.
Defined.

Lemma getAaveData_never_reports_rates_witness :
  read_getReserveData demo_runtime base (AAVE_POOL_ADDRESSES base) (aave_asset demo_aave)
  = Returned demo_reserve ∧
  currentLiquidityRate demo_reserve = 5 * 10 ^ 25 ∧
  apy_string demo_runtime (5 * 10 ^ 25) = "5.00%" ∧
  getAaveDataTool demo_runtime demo_aave
  = JsObject [("success", JsBool false);
              ("error", JsString "Invalid ABI parameter.");
              ("chain", JsString "base");
              ("protocol", JsString "Aave V3")] ∧
  field "data" (getAaveDataTool demo_runtime demo_aave) = None.
Proof.
  split; [reflexivity|]. split; [reflexivity|].
  apply (getAaveData_never_reports_rates demo_runtime demo_aave "Invalid ABI parameter.").
  by vm_compute.
Defined.

(** C4 as stated fails: the ABI encoder throws inside the build tool and
    the envelope carries the message but no [chain]; and a read that throws
    inside the multi-chain tool does not make the tool report failure. *)
Lemma failure_envelope_not_uniform :
  (attempt demo_runtime (BuildTransaction demo_build) = Thrown "Function not found on ABI." ∧
   ¬ uniform_failure base "Function not found on ABI."
       (run demo_runtime (BuildTransaction demo_build))) ∧
  (read_balanceOf demo_runtime arbitrum (bal_tokenAddress demo_balances)
                  (bal_address demo_balances) = Thrown "HTTP request failed." ∧
   arbitrum ∈ bal_chains demo_balances ∧
   field "success" (run demo_runtime (GetMultiChainBalance demo_balances))
   = Some (JsBool true)).
Proof.
  split_and!; try reflexivity.
  - intros (_ & _ & Hchain). discriminate Hchain.
  - repeat constructor.
Qed.

End ToolsInstances.

(** ** More on insertion-ordered maps *)

Lemma Forall_set {V} (P : string * V → Prop) k v (m : list (string * V)) :
  P (k, v) → Forall P m → Forall P (JsMap.set k v m).
Proof.
  intros Hv. induction 1 as [|[k' v'] m Hx Hm IH]; cbn [JsMap.set].
  - by constructor.
  - destruct (String.eqb k k'); by constructor.
Qed.

Lemma get_Some_elem_of {V} k (v : V) (m : list (string * V)) :
  JsMap.get k m = Some v → (k, v) ∈ m.
Proof.
  induction m as [|[k' v'] m IH]; cbn [JsMap.get]; [done|].
  destruct (String.eqb_spec k k') as [->|Hne].
  - intros [= ->]. by left.
  - intros Hget. right. by apply IH.
Qed.

Lemma values_set_new {V} k (v : V) (m : list (string * V)) :
  JsMap.get k m = None → JsMap.values (JsMap.set k v m) = JsMap.values m ++ [v].
Proof.
  unfold JsMap.values. induction m as [|[k' v'] m IH]; cbn [JsMap.get JsMap.set]; [done|].
  destruct (String.eqb k k'); [done|]. intros Hget. rewrite !fmap_cons, IH by done. done.
Qed.

Lemma values_set_old {V} k (v : V) (m : list (string * V)) i :
  NoDup (JsMap.keys m) → JsMap.keys m !! i = Some k →
  JsMap.values (JsMap.set k v m) = <[i := v]> (JsMap.values m).
Proof.
  unfold JsMap.values, JsMap.keys. revert i.
  induction m as [|[k' v'] m IH]; intros i; cbn [JsMap.set]; [done|].
  rewrite !fmap_cons, NoDup_cons. cbn [fst snd]. intros [Hnotin Hnd] Hi.
  destruct (String.eqb_spec k k') as [->|Hne].
  - destruct i as [|i]; [done|]. simpl in Hi.
    exfalso. apply Hnotin. by eapply list_elem_of_lookup_2.
  - destruct i as [|i]; simpl in Hi; [congruence|].
    rewrite fmap_cons. cbn [snd]. simpl. f_equal. by apply IH.
Qed.

Lemma elem_of_set {V} k (v : V) (m : list (string * V)) k' v' :
  (k', v') ∈ JsMap.set k v m → (k', v') = (k, v) ∨ (k', v') ∈ m.
Proof.
  induction m as [|[k0 v0] m IH]; cbn [JsMap.set].
  - intros Hin. apply list_elem_of_singleton in Hin. by left.
  - destruct (String.eqb k k0).
    + intros [->|Hin]%elem_of_cons; [by left | right; by right].
    + intros [->|Hin]%elem_of_cons; [right; by left|].
      destruct (IH Hin); [by left | right; by right].
Qed.

Lemma elem_of_set_other {V} k (v : V) (m : list (string * V)) k' v' :
  k' ≠ k → (k', v') ∈ m → (k', v') ∈ JsMap.set k v m.
Proof.
  intros Hne. induction m as [|[k0 v0] m IH]; cbn [JsMap.set]; [by intros ?%elem_of_nil|].
  destruct (String.eqb_spec k k0) as [->|Hk].
  - intros [[= -> ->]|Hin]%elem_of_cons; [done | by right].
  - intros [->|Hin]%elem_of_cons; [by left | right; by apply IH].
Qed.

Lemma elem_of_set_new {V} k (v : V) (m : list (string * V)) : (k, v) ∈ JsMap.set k v m.
Proof.
  induction m as [|[k0 v0] m IH]; cbn [JsMap.set]; [by left|].
  destruct (String.eqb k k0); [by left | by right].
Qed.

(** ** Further properties of the coordinator *)

Module CoordinatorExtra.
Import Coordinator CoordinatorSpec CoordinatorProps CoordinatorTrace.

Section Host.
Variable randomUUID : nat → string.
Variable clock : nat → Z.

Lemma exec_updateDelegation id st res err s :
  exec randomUUID clock (UpdateDelegation id st res err) s
  = match delegations s !! id with
    | Some d =>
        {| agents := agents s;
           messages := deliver (response_message d id st res err (clock (clockCalls s)))
                               (messages s);
           delegations := <[id := updated d st res err]> (delegations s);
           uuidCalls := uuidCalls s; clockCalls := S (clockCalls s) |}
    | None => s
    end.
Proof.
  cbn [exec]. destruct (delegations s !! id) as [d|] eqn:Hget.
  - by rewrite (updateDelegation_found _ _ _ _ _ _ _ Hget).
  - by rewrite updateDelegation_missing.
Qed.

Lemma exec_updateReputation agentId delta s :
  exec randomUUID clock (UpdateReputation agentId delta) s
  = match JsMap.get agentId (agents s) with
    | Some agent =>
        {| agents :=
             JsMap.set agentId
               {| a_id := a_id agent; a_name := a_name agent;
                  a_endpoint := a_endpoint agent;
                  a_capabilities := a_capabilities agent;
                  registeredAt := registeredAt agent;
                  lastSeen := clock (clockCalls s);
                  reputation := clamp (reputation agent + delta) |}
               (agents s);
           messages := messages s; delegations := delegations s;
           uuidCalls := uuidCalls s; clockCalls := S (clockCalls s) |}
    | None => s
    end.
Proof.
  cbn [exec]. destruct (JsMap.get agentId (agents s)) as [agent|] eqn:Hget.
  - by rewrite (updateReputation_found _ _ _ _ _ Hget).
  - by rewrite updateReputation_missing.
Qed.

Lemma exec_composeWorkflow workflow s :
  exec randomUUID clock (ComposeWorkflow workflow) s
  = after_workflow randomUUID clock (w_name workflow)
      (served (agents s) (steps workflow)) s.
Proof. destruct workflow as [name todo]. cbn [exec]. by rewrite composeWorkflow_run. Qed.

(** *** The registry *)

Lemma exec_keeps_agents c s :
  writes_registry c = false → agents (exec randomUUID clock c s) = agents s.
Proof.
  destruct c; try discriminate; intros _; try reflexivity.
  - rewrite exec_updateDelegation. by destruct (delegations s !! id).
  - by rewrite exec_composeWorkflow.
Qed.

(** Only [registerAgent] and [updateReputation] write to the registry:
    whatever is sent, received, delegated, updated or composed, every
    agent record, its [lastSeen] included, stays as it was. *)
Theorem messaging_keeps_registry (calls : list Call) (s : Service) :
  Forall (λ c, writes_registry c = false) calls →
  listAgents (exec_all randomUUID clock calls s)
  = (Returned (JsMap.values (agents s)), exec_all randomUUID clock calls s).
Proof.
  intros Hcalls. unfold listAgents, mbind, M_bind, getService, mret, M_ret.
  do 3 f_equal. revert s. induction Hcalls as [|c calls Hc _ IH]; intros s; [done|].
  unfold exec_all in *. cbn [foldl]. by rewrite IH, exec_keeps_agents.
Qed.

Lemma exec_reputations_bounded c s :
  reputations_bounded s → reputations_bounded (exec randomUUID clock c s).
Proof.
  unfold reputations_bounded. intros Hs.
  destruct (writes_registry c) eqn:Hc; [|by rewrite exec_keeps_agents].
  destruct c; try discriminate.
  - cbn [exec]. rewrite registerAgent_run. cbn [snd agents].
    apply Forall_set; [by cbn | done].
  - rewrite exec_updateReputation.
    destruct (JsMap.get agentId (agents s)); [|done]. cbn [agents].
    apply Forall_set; [|done]. cbn. unfold clamp. lia.
Qed.

Lemma exec_all_reputations_bounded calls s :
  reputations_bounded s → reputations_bounded (exec_all randomUUID clock calls s).
Proof.
  revert s. induction calls as [|c calls IH]; intros s Hs; [done|].
  unfold exec_all in *. cbn [foldl]. by apply IH, exec_reputations_bounded.
Qed.

(** With integer deltas reputations stay within [0, 200]: no sequence of
    calls, each [updateReputation] among them being passed an integer,
    takes a registry whose reputations are within these bounds, the empty
    one in particular, to one where some reputation is outside them.  (A
    delta that is not a number is outside what [updateReputation] is
    modelled on.) *)
Theorem reputations_stay_bounded (calls : list Call) (s : Service) :
  reputations_bounded s →
  ∀ agent, agent ∈ JsMap.values (agents (exec_all randomUUID clock calls s)) →
           0 ≤ reputation agent ≤ 200.
Proof.
  intros Hs agent Hin.
  pose proof (exec_all_reputations_bounded calls s Hs) as Hall.
  unfold JsMap.values in Hin. apply list_elem_of_fmap in Hin as ([k a] & -> & Hin).
  unfold reputations_bounded in Hall. rewrite Forall_forall in Hall.
  exact (Hall _ Hin).
Qed.

Lemma exec_filed_by_id c s :
  distinct_ids s ∧ filed_by_id s →
  distinct_ids (exec randomUUID clock c s) ∧ filed_by_id (exec randomUUID clock c s).
Proof.
  unfold distinct_ids, filed_by_id. intros [Hnd Hid].
  destruct (writes_registry c) eqn:Hc; [|by rewrite exec_keeps_agents].
  destruct c; try discriminate.
  - cbn [exec]. rewrite registerAgent_run. cbn [snd agents].
    split; [by apply NoDup_keys_set | by apply Forall_set].
  - rewrite exec_updateReputation.
    destruct (JsMap.get agentId (agents s)) as [agent|] eqn:Hget; [|done]. cbn [agents].
    split; [by apply NoDup_keys_set|]. apply Forall_set; [|done]. cbn.
    apply get_Some_elem_of in Hget. rewrite Forall_forall in Hid. exact (Hid _ Hget).
Qed.

Lemma exec_all_filed_by_id calls s :
  distinct_ids s ∧ filed_by_id s →
  distinct_ids (exec_all randomUUID clock calls s)
  ∧ filed_by_id (exec_all randomUUID clock calls s).
Proof.
  revert s. induction calls as [|c calls IH]; intros s Hs; [done|].
  unfold exec_all in *. cbn [foldl]. by apply IH, exec_filed_by_id.
Qed.

(** Identifiers stay unique: after any sequence of calls on a registry
    that files each agent once and under its own identifier, the empty one
    in particular, [listAgents] shows no identifier twice, and looking an
    agent up finds a record with the identifier asked for. *)
Theorem identifiers_stay_unique (calls : list Call) (s : Service) :
  distinct_ids s → filed_by_id s →
  NoDup (a_id <$> JsMap.values (agents (exec_all randomUUID clock calls s))) ∧
  ∀ id agent, JsMap.get id (agents (exec_all randomUUID clock calls s)) = Some agent →
              a_id agent = id.
Proof.
  intros Hnd Hid.
  destruct (exec_all_filed_by_id calls s (conj Hnd Hid)) as [Hnd' Hid'].
  unfold distinct_ids, filed_by_id, JsMap.keys, JsMap.values in *. split.
  - rewrite <- list_fmap_compose.
    erewrite (Forall_fmap_ext_1 (a_id ∘ snd) fst); [done|].
    eapply Forall_impl; [exact Hid'|]. by intros [k a].
  - intros id agent Hget. apply get_Some_elem_of in Hget.
    rewrite Forall_forall in Hid'. exact (Hid' _ Hget).
Qed.

(** *** The store of delegations *)

Lemma foldl_store_keeps (ds : list TaskDelegation) (m : gmap string TaskDelegation) k :
  is_Some (m !! k) → is_Some (foldl (λ acc d, <[taskId d := d]> acc) m ds !! k).
Proof.
  intros Hsome.
  destruct (lookup_foldl_store_frame ds m k) as [-> | (j & d & _ & _ & ->)];
    [done | by eexists].
Qed.

Lemma exec_keeps_delegations c s k :
  is_Some (delegations s !! k) → is_Some (delegations (exec randomUUID clock c s) !! k).
Proof.
  intros Hsome. destruct c; try exact Hsome.
  - cbn [exec]. rewrite delegateTask_run. cbn [snd delegations].
    rewrite lookup_insert. case_decide; [by eexists | done].
  - rewrite exec_updateDelegation. destruct (delegations s !! id) eqn:Hid; [|done].
    cbn [delegations]. rewrite lookup_insert. case_decide; [by eexists | done].
  - rewrite exec_updateReputation. by destruct (JsMap.get agentId (agents s)).
  - rewrite exec_composeWorkflow. unfold after_workflow. cbn [delegations].
    by apply foldl_store_keeps.
Qed.

Lemma exec_filed_by_taskId c s :
  filed_by_taskId s → filed_by_taskId (exec randomUUID clock c s).
Proof.
  unfold filed_by_taskId. intros Hs. destruct c; try exact Hs.
  - cbn [exec]. rewrite delegateTask_run. cbn [snd delegations]. intros k d'.
    rewrite lookup_insert. case_decide as Hk; [|by apply Hs].
    intros [= <-]. by rewrite <- Hk.
  - rewrite exec_updateDelegation. destruct (delegations s !! id) as [d|] eqn:Hid; [|done].
    cbn [delegations]. intros k d'. rewrite lookup_insert.
    case_decide as Hk; [|by apply Hs].
    intros [= <-]. cbn [taskId updated]. rewrite <- Hk. by apply Hs.
  - rewrite exec_updateReputation. by destruct (JsMap.get agentId (agents s)).
  - rewrite exec_composeWorkflow. unfold after_workflow. cbn [delegations]. intros k d'.
    destruct (lookup_foldl_store_frame
                (workflow_delegations randomUUID (w_name workflow) (uuidCalls s)
                   (served (agents s) (steps workflow)))
                (delegations s) k) as [-> | (j & d & _ & Hk & ->)]; [by apply Hs|].
    by intros [= <-].
Qed.

(** Delegations are never removed and never misfiled: after any sequence
    of calls every task identifier that was in the store is still in it,
    and if each record was filed under its own [taskId] (as in the empty
    store) each record still is. *)
Theorem delegations_persist (calls : list Call) (s : Service) :
  (∀ k, is_Some (delegations s !! k) →
        is_Some (delegations (exec_all randomUUID clock calls s) !! k)) ∧
  (filed_by_taskId s →
   ∀ k d, getDelegation k (exec_all randomUUID clock calls s)
          = (Returned (Some d), exec_all randomUUID clock calls s) →
          taskId d = k).
Proof.
  split.
  - revert s. induction calls as [|c calls IH]; intros s k Hk; [done|].
    unfold exec_all in *. cbn [foldl]. by apply IH, exec_keeps_delegations.
  - intros Hs k d. rewrite getDelegation_run. intros [= Hget]. revert Hget.
    assert (filed_by_taskId (exec_all randomUUID clock calls s)) as Hall; [|apply Hall].
    clear k d. revert s Hs. induction calls as [|c calls IH]; intros s Hs; [done|].
    unfold exec_all in *. cbn [foldl]. by apply IH, exec_filed_by_taskId.
Qed.

(** *** Mailboxes *)

Lemma exec_mailbox_prefix c s r :
  c ≠ ReceiveMessages r → mailbox s r `prefix_of` mailbox (exec randomUUID clock c s) r.
Proof.
  intros Hc. destruct c; try reflexivity.
  - cbn [exec]. rewrite sendMessage_run. unfold mailbox. cbn [snd messages].
    rewrite lookup_deliver. by eexists.
  - cbn [exec]. rewrite receiveMessages_run. unfold mailbox, with_messages. cbn [snd messages].
    rewrite lookup_delete_ne; [done|]. congruence.
  - cbn [exec]. rewrite delegateTask_run. unfold mailbox. cbn [snd messages].
    rewrite lookup_deliver. by eexists.
  - rewrite exec_updateDelegation. destruct (delegations s !! id); [|done].
    unfold mailbox. cbn [messages]. rewrite lookup_deliver. by eexists.
  - rewrite exec_updateReputation. by destruct (JsMap.get agentId (agents s)).
  - rewrite exec_composeWorkflow. unfold mailbox, after_workflow. cbn [messages].
    rewrite lookup_foldl_deliver. by eexists.
Qed.

(** Mailboxes are first-in, first-out and append-only: as long as nobody
    calls [receiveMessages] for a recipient, what that recipient's mailbox
    holds stays at its front, in order, whatever else is called. *)
Theorem mailbox_append_only (calls : list Call) (s : Service) (r : string) :
  Forall (λ c, c ≠ ReceiveMessages r) calls →
  mailbox s r `prefix_of` mailbox (exec_all randomUUID clock calls s) r.
Proof.
  intros Hcalls. revert s. induction Hcalls as [|c calls Hc _ IH]; intros s; [done|].
  unfold exec_all in *. cbn [foldl]. etrans; [|apply IH]. by apply exec_mailbox_prefix.
Qed.

(** Nothing is delivered twice: what [receiveMessages] has handed out is
    gone, so a later [receiveMessages] returns only the messages sent to
    the recipient since, each with the sender, recipient, type, payload
    and signature it was sent with and the clock reading of its own send
    as timestamp. *)
Theorem received_once (s : Service) (msgs : list MessageInput) (r : string) :
  ∃ s1 s2 s3,
    receiveMessages r s = (Returned (mailbox s r), s1) ∧
    sendAll clock msgs s1 = (Returned (), s2) ∧
    receiveMessages r s2
    = (Returned
         (filter (λ m, m_to m = r)
            (imap (λ i m, {| m_from := i_from m; m_to := i_to m; m_type := i_type m;
                             m_payload := i_payload m;
                             timestamp := clock (clockCalls s + i)%nat;
                             m_signature := i_signature m |}) msgs)), s3) ∧
    messages s3 !! r = None.
Proof.
  destruct (sendAll_run clock msgs (with_messages (delete r) s)) as (s2 & Hrun & _ & _ & Hmb).
  exists (with_messages (delete r) s), s2, (with_messages (delete r) s2).
  split_and!; [done | done | | apply lookup_delete_eq].
  rewrite receiveMessages_run, Hmb. unfold mailbox at 1, with_messages. cbn [messages].
  rewrite lookup_delete_eq. reflexivity.
Qed.

(** [delegateTask] checks nothing and always returns: whoever the sender
    and the assignee are, registered or not, it files a [pending] record
    that keeps a [result] or [error] passed in, and appends to the
    assignee's mailbox exactly one [delegation] message from the sender
    that names the record's [taskId] and carries the task; no other
    mailbox and no agent changes. *)
Theorem delegateTask_notifies_assignee (s : Service) (d : DelegationInput) :
  ∃ record s' msg,
    delegateTask randomUUID clock d s = (Returned record, s') ∧
    getDelegation (taskId record) s' = (Returned (Some record), s') ∧
    (fromAgent record, toAgent record, task record, status record)
    = (i_fromAgent d, i_toAgent d, i_task d, Pending) ∧
    (result record, error record) = (i_result d, i_error d) ∧
    mailbox s' (i_toAgent d) = mailbox s (i_toAgent d) ++ [msg] ∧
    (m_from msg, m_to msg, m_type msg) = (i_fromAgent d, i_toAgent d, MsgDelegation) ∧
    field_of_payload "taskId" msg = Some (JsString (taskId record)) ∧
    field_of_payload "task" msg = Some (js_of_task (i_task d)) ∧
    timestamp msg = clock (clockCalls s) ∧
    (∀ r, r ≠ i_toAgent d → mailbox s' r = mailbox s r) ∧
    agents s' = agents s.
Proof.
  rewrite delegateTask_run.
  eexists (delegated randomUUID d (uuidCalls s)), _,
          (delegation_message randomUUID d (uuidCalls s) (clock (clockCalls s))).
  split; [reflexivity|]. rewrite getDelegation_run. cbn [delegations taskId delegated].
  rewrite lookup_insert_eq. split_and!; try reflexivity.
  - unfold mailbox. cbn [messages]. rewrite lookup_deliver.
    cbn [m_to delegation_message]. by rewrite decide_True.
  - intros r Hr. unfold mailbox. cbn [messages]. rewrite lookup_deliver.
    cbn [m_to delegation_message]. rewrite decide_False by done. apply app_nil_r.
Qed.

(** *** Sequences of updates *)

Lemma responses_cons d id c u ups :
  responses clock d id c (u :: ups)
  = response_message d id (u_status u) (u_result u) (u_error u) (clock c)
    :: responses clock d id (S c) ups.
Proof.
  unfold responses. rewrite imap_cons, Nat.add_0_r. f_equal.
  apply imap_ext. intros i x _. simpl. by rewrite Nat.add_succ_r.
Qed.

Lemma updateAll_run id ups : ∀ s d,
  delegations s !! id = Some d →
  ∃ s' d',
    updateAll clock id ups s = (Returned (), s') ∧
    delegations s' !! id = Some d' ∧
    assignment d' = assignment d ∧
    status d' = final_status d ups ∧
    result d' = final_result d ups ∧
    error d' = final_error d ups ∧
    mailbox s' (fromAgent d)
    = mailbox s (fromAgent d) ++ responses clock d id (clockCalls s) ups ∧
    agents s' = agents s.
Proof.
  induction ups as [|u ups IH]; intros s d Hget.
  - exists s, d. split_and!; try done. by rewrite app_nil_r.
  - cbn [updateAll]. unfold mbind at 1, M_bind at 1.
    rewrite (updateDelegation_found _ _ _ _ _ _ _ Hget).
    set (s1 := {| agents := agents s;
                  messages := deliver (response_message d id (u_status u) (u_result u)
                                         (u_error u) (clock (clockCalls s))) (messages s);
                  delegations := <[id := updated d (u_status u) (u_result u) (u_error u)]>
                                   (delegations s);
                  uuidCalls := uuidCalls s; clockCalls := S (clockCalls s) |}).
    destruct (IH s1 (updated d (u_status u) (u_result u) (u_error u)))
      as (s' & d' & Hrun & Hget' & Hasg & Hst & Hres & Herr & Hmb & Hag).
    { subst s1. cbn [delegations]. apply lookup_insert_eq. }
    exists s', d'. split_and!; try done.
    + cbn [fromAgent updated] in Hmb. rewrite Hmb, responses_cons.
      unfold mailbox at 1. subst s1. cbn [messages clockCalls]. rewrite lookup_deliver.
      cbn [m_to response_message]. rewrite decide_True by done.
      by rewrite <- app_assoc.
Qed.

(** Updates are unordered and cumulative: any sequence of
    [updateDelegation] calls on a stored task returns, whatever the order
    of the statuses; it leaves the status of the last call, the last
    truthy result and the last truthy error that were passed (the earlier
    ones if none was), never touches who asked what of whom, and adds one
    response per call, in call order, to the originator's mailbox.  On an
    unknown task the first call throws and nothing changes. *)
Theorem updates_accumulate (s : Service) (id : string) (ups : list Update) :
  (∀ d, delegations s !! id = Some d →
     ∃ s' d',
       updateAll clock id ups s = (Returned (), s') ∧
       getDelegation id s' = (Returned (Some d'), s') ∧
       (taskId d', fromAgent d', toAgent d', task d')
       = (taskId d, fromAgent d, toAgent d, task d) ∧
       status d' = final_status d ups ∧
       result d' = final_result d ups ∧
       error d' = final_error d ups ∧
       mailbox s' (fromAgent d)
       = mailbox s (fromAgent d) ++ responses clock d id (clockCalls s) ups ∧
       length (mailbox s' (fromAgent d))
       = (length (mailbox s (fromAgent d)) + length ups)%nat) ∧
  (delegations s !! id = None → ups ≠ [] →
     updateAll clock id ups s = (Thrown ("Delegation not found: " +:+ id), s)).
Proof.
  split.
  - intros d Hget.
    destruct (updateAll_run id ups s d Hget)
      as (s' & d' & Hrun & Hget' & Hasg & Hst & Hres & Herr & Hmb & _).
    exists s', d'. rewrite getDelegation_run, Hget'. split_and!; try done.
    rewrite Hmb, length_app. unfold responses. by rewrite length_imap.
  - intros Hnone Hne. destruct ups as [|u ups]; [done|].
    cbn [updateAll]. unfold mbind, M_bind. by rewrite updateDelegation_missing.
Qed.

(** *** Workflows in sequence *)

Lemma served_app registry a b :
  unmatched registry a = None →
  unmatched registry (a ++ b) = unmatched registry b ∧
  served registry (a ++ b) = served registry a ++ served registry b.
Proof.
  induction a as [|step a IH]; [done|]. cbn.
  destruct (discovered (agentCapability step) registry); [done|].
  intros Ha. destruct (IH Ha) as [-> ->]. done.
Qed.

Lemma after_workflow_app name sv1 sv2 s :
  after_workflow randomUUID clock name (sv1 ++ sv2) s
  = after_workflow randomUUID clock name sv2 (after_workflow randomUUID clock name sv1 s).
Proof.
  unfold after_workflow, workflow_messages, workflow_delegations.
  cbn [agents messages delegations uuidCalls clockCalls].
  rewrite !imap_app, !foldl_app, length_app. f_equal; try lia.
  - f_equal. apply imap_ext. intros i [step best] _. cbn. by rewrite !Nat.add_assoc.
  - f_equal. apply imap_ext. intros i [step best] _. cbn. by rewrite !Nat.add_assoc.
Qed.

(** A workflow is the sequence of its parts: when the steps [a] all find
    an agent, running [a ++ b] is running [a] and then [b] on the state
    [a] leaves, the results of [a] being returned in front of those of
    [b], or dropped when [b] throws. *)
Theorem composeWorkflow_app (s : Service) (name : string) (a b : list Step)
    (results_a : list StepResult) (s1 : Service) :
  composeWorkflow randomUUID clock {| w_name := name; steps := a |} s
  = (Returned results_a, s1) →
  composeWorkflow randomUUID clock {| w_name := name; steps := a ++ b |} s
  = match composeWorkflow randomUUID clock {| w_name := name; steps := b |} s1 with
    | (Returned results_b, s2) => (Returned (results_a ++ results_b), s2)
    | (Thrown message, s2) => (Thrown message, s2)
    end.
Proof.
  rewrite !composeWorkflow_run.
  destruct (unmatched (agents s) a) eqn:Ha; [discriminate|].
  intros [= <- <-].
  destruct (served_app (agents s) a b Ha) as [-> ->].
  rewrite after_workflow_app.
  change (agents (after_workflow randomUUID clock name (served (agents s) a) s))
    with (agents s).
  destruct (unmatched (agents s) b); [done|]. f_equal. f_equal.
  unfold workflow_results, after_workflow. cbn [uuidCalls].
  rewrite imap_app. f_equal. apply imap_ext. intros i [step best] _. cbn.
  by rewrite Nat.add_assoc.
Qed.

(** *** Registration, listing and discovery *)

(** [registerAgent] and [listAgents]: a new identifier goes to the end of
    the list, and an identifier already listed keeps its place, its record
    being replaced; the list never shrinks. *)
Theorem registerAgent_listAgents (s : Service) (d : AgentDescriptor) :
  ∃ record s',
    registerAgent clock d s = (Returned record, s') ∧
    (JsMap.get (d_id d) (agents s) = None →
     listAgents s' = (Returned (JsMap.values (agents s) ++ [record]), s')) ∧
    (∀ i, distinct_ids s → JsMap.keys (agents s) !! i = Some (d_id d) →
          listAgents s' = (Returned (<[i := record]> (JsMap.values (agents s))), s'))
    ∧ (length (JsMap.values (agents s)) ≤ length (JsMap.values (agents s')))%nat.
Proof.
  rewrite registerAgent_run. do 2 eexists. split; [reflexivity|].
  unfold listAgents, mbind, M_bind, getService, mret, M_ret. cbn [agents].
  split_and!.
  - intros Hget. by rewrite values_set_new.
  - intros i Hnd Hi. by rewrite (values_set_old _ _ _ i).
  - unfold JsMap.values. rewrite !length_fmap.
    pose proof (keys_set (d_id d) (registered clock (clockCalls s) d) (agents s)) as Hk.
    apply (f_equal length) in Hk. unfold JsMap.keys in Hk. rewrite length_fmap in Hk.
    rewrite Hk. destruct (JsMap.get (d_id d) (agents s));
      rewrite ?length_app, length_fmap; lia.
Qed.

Lemma elem_of_discovered tag registry a :
  a ∈ discovered tag registry ↔ a ∈ JsMap.values registry ∧ has_tag tag a.
Proof.
  unfold discovered.
  rewrite Array_sort_perm, list_elem_of_filter, <- hasCapability_has_tag, Is_true_true.
  tauto.
Qed.

(** What is registered can be discovered: right after [registerAgent] the
    new record, with reputation 100, is among the agents [discoverAgents]
    returns for a tag exactly when one of the capabilities passed in
    carries the tag; and in a registry that files agents under their own
    identifiers the agents with another identifier are discovered as
    before. *)
Theorem registerAgent_then_discoverAgents (s : Service) (d : AgentDescriptor)
    (tag : string) :
  ∃ record s' found,
    registerAgent clock d s = (Returned record, s') ∧
    discoverAgents tag s' = (Returned found, s') ∧
    reputation record = 100 ∧
    (record ∈ found ↔
     ∃ cap, cap ∈ d_capabilities d ∧
            (tag ∈ operations cap ∨ tag ∈ protocols cap ∨ tag ∈ chains cap)) ∧
    (filed_by_id s →
     ∀ other, a_id other ≠ d_id d →
       (other ∈ found ↔ other ∈ discovered tag (agents s))).
Proof.
  rewrite registerAgent_run. do 3 eexists. split; [reflexivity|].
  rewrite discoverAgents_run. split; [reflexivity|]. cbn [agents].
  split_and!; [done | |].
  - rewrite elem_of_discovered. unfold has_tag. cbn [a_capabilities registered].
    split; [tauto|]. intros Hcap. split; [|done].
    unfold JsMap.values. apply list_elem_of_fmap.
    exists (d_id d, registered clock (clockCalls s) d). split; [done|].
    apply elem_of_set_new.
  - intros Hid other Hother. rewrite !elem_of_discovered.
    unfold JsMap.values. rewrite !list_elem_of_fmap.
    unfold filed_by_id in Hid. rewrite Forall_forall in Hid.
    split; intros [([k a] & -> & Hin) Htag]; (split; [|done]).
    + apply elem_of_set in Hin as [[= -> ->]|Hin]; [done|]. by exists (k, a).
    + exists (k, a). split; [done|]. apply elem_of_set_other; [|done].
      specialize (Hid _ Hin). cbn in Hid, Hother. congruence.
Qed.

(** Reputation changes do not add up: two [updateReputation] calls leave
    [clamp (clamp (r + d1) + d2)], which is [clamp (r + d1 + d2)] when the
    first sum stays within [0, 200], and from a reputation within these
    bounds saturation is absorbing: once at a bound, a further change in
    the same direction changes nothing. *)
Theorem updateReputation_twice (s : Service) (id : string) (d1 d2 : Z)
    (agent : RegisteredAgent) :
  JsMap.get id (agents s) = Some agent →
  ∃ s1 s2 agent2,
    updateReputation clock id d1 s = (Returned (), s1) ∧
    updateReputation clock id d2 s1 = (Returned (), s2) ∧
    JsMap.get id (agents s2) = Some agent2 ∧
    reputation agent2 = clamp (clamp (reputation agent + d1) + d2) ∧
    lastSeen agent2 = clock (S (clockCalls s)) ∧
    (0 ≤ reputation agent + d1 ≤ 200 →
     reputation agent2 = clamp (reputation agent + d1 + d2)) ∧
    (200 ≤ reputation agent + d1 → 0 ≤ d2 → reputation agent2 = 200) ∧
    (reputation agent + d1 ≤ 0 → d2 ≤ 0 → reputation agent2 = 0).
Proof.
  intros Hget. rewrite (updateReputation_found _ _ _ _ _ Hget).
  eexists _, _, _. split; [reflexivity|].
  erewrite updateReputation_found by (cbn [agents]; apply get_set_eq).
  split; [reflexivity|]. cbn [agents clockCalls]. rewrite get_set_eq.
  split; [reflexivity|]. cbn [reputation lastSeen]. unfold clamp.
  split_and!; try done; lia.
Qed.

(** *** Timestamps *)

Lemma chronological_later mb c c' :
  monotone_clock clock → (c ≤ c')%nat → chronological clock mb c → chronological clock mb c'.
Proof.
  intros Hmono Hle Hmb r. destruct (Hmb r) as [Hsorted Hbound]. split; [done|].
  eapply Forall_impl; [exact Hbound|]. intros m Hm. cbn in *.
  specialize (Hmono c c' Hle). lia.
Qed.

Lemma chronological_deliver mb c msg :
  monotone_clock clock → timestamp msg = clock c →
  chronological clock mb c → chronological clock (deliver msg mb) (S c).
Proof.
  intros Hmono Hts Hmb r. destruct (Hmb r) as [Hsorted Hbound].
  assert (clock c ≤ clock (S c)) as Hstep by (apply Hmono; lia).
  rewrite lookup_deliver. case_decide as Hto.
  - split.
    + rewrite fmap_app. apply StronglySorted_app_2; [| done | repeat constructor].
      intros t1 t2 Ht1 Ht2. apply list_elem_of_fmap in Ht1 as (m1 & -> & Hm1).
      apply list_elem_of_singleton in Ht2 as ->.
      rewrite Forall_forall in Hbound. specialize (Hbound _ Hm1). cbn in Hbound. lia.
    + apply Forall_app. split.
      * eapply Forall_impl; [exact Hbound|]. intros m Hm. cbn in *. lia.
      * repeat constructor. lia.
  - rewrite app_nil_r. split; [done|].
    eapply Forall_impl; [exact Hbound|]. intros m Hm. cbn in *. lia.
Qed.

Lemma chronological_workflow name sv : ∀ mb u c,
  monotone_clock clock → chronological clock mb c →
  chronological clock
    (foldl (λ acc msg, deliver msg acc) mb (workflow_messages randomUUID clock name u c sv))
    (c + length sv).
Proof.
  induction sv as [|p sv IH]; intros mb u c Hmono Hmb.
  - cbn. by rewrite Nat.add_0_r.
  - rewrite workflow_messages_cons. cbn [foldl length].
    rewrite Nat.add_succ_r. apply (IH _ (S u) (S c)); [done|].
    by apply chronological_deliver.
Qed.

Lemma exec_chronological c s :
  monotone_clock clock →
  chronological clock (messages s) (clockCalls s) →
  chronological clock (messages (exec randomUUID clock c s))
                      (clockCalls (exec randomUUID clock c s)).
Proof.
  intros Hmono Hs. destruct c; try exact Hs.
  - cbn [exec]. rewrite registerAgent_run. cbn [snd messages clockCalls].
    eapply chronological_later; [done | | exact Hs]. lia.
  - cbn [exec]. rewrite sendMessage_run. cbn [snd messages clockCalls].
    by apply chronological_deliver.
  - cbn [exec]. rewrite receiveMessages_run. unfold with_messages.
    cbn [snd messages clockCalls]. intros r. destruct (decide (agentId = r)) as [->|Hne].
    + rewrite lookup_delete_eq. cbn. split; constructor.
    + rewrite lookup_delete_ne by done. apply Hs.
  - cbn [exec]. rewrite delegateTask_run. cbn [snd messages clockCalls].
    by apply chronological_deliver.
  - rewrite exec_updateDelegation. destruct (delegations s !! id); [|done].
    cbn [messages clockCalls]. by apply chronological_deliver.
  - rewrite exec_updateReputation. destruct (JsMap.get agentId (agents s)); [|done].
    cbn [messages clockCalls]. eapply chronological_later; [done | | exact Hs]. lia.
  - rewrite exec_composeWorkflow. unfold after_workflow. cbn [messages clockCalls].
    by apply chronological_workflow.
Qed.

(** With a clock that never runs backwards every mailbox is in timestamp
    order: whatever sequence of calls is made on the empty service, the
    timestamps of the messages waiting for a recipient never decrease
    from front to back, and [receiveMessages] hands them out in that
    order. *)
Theorem mailboxes_chronological (calls : list Call) (r : string) :
  monotone_clock clock →
  ∃ waiting s',
    receiveMessages r (exec_all randomUUID clock calls initial) = (Returned waiting, s') ∧
    StronglySorted Z.le (timestamp <$> waiting).
Proof.
  intros Hmono. rewrite receiveMessages_run. do 2 eexists. split; [reflexivity|].
  assert (∀ s, chronological clock (messages s) (clockCalls s) →
               chronological clock (messages (exec_all randomUUID clock calls s))
                                   (clockCalls (exec_all randomUUID clock calls s))) as Hall.
  { induction calls as [|c calls IH]; intros s Hs; [done|].
    unfold exec_all in *. cbn [foldl]. by apply IH, exec_chronological. }
  apply Hall. intros r'. cbn. rewrite lookup_empty. cbn. split; constructor.
Qed.

End Host.
End CoordinatorExtra.

(** ** Further properties of the blockchain tools *)

Module ToolsExtra.
Import BlockchainTools ToolsSpec ToolsProps.

(** The build tool works offline: two runtimes with the same ABI encoder
    and the same chain table give the same answer whatever their networks
    do.  When the encoder returns, the transaction is addressed to the
    contract, carries the encoded data and the chain's identifier, and its
    value is the one passed in, or "0" when none or the empty string was
    passed. *)
Theorem buildTransaction_offline (rt rt' : Runtime) (p : BuildParams) :
  (encodeFunctionData rt (bt_abi p) (bt_functionName p) (default [] (bt_args p))
   = encodeFunctionData rt' (bt_abi p) (bt_functionName p) (default [] (bt_args p)) →
   chain_id rt (bt_chain p) = chain_id rt' (bt_chain p) →
   buildTransactionTool rt p = buildTransactionTool rt' p) ∧
  (∀ data,
     encodeFunctionData rt (bt_abi p) (bt_functionName p) (default [] (bt_args p))
     = Returned data →
     field "transaction" (buildTransactionTool rt p)
     = Some (JsObject [("to", JsString (bt_contractAddress p));
                       ("data", JsString data);
                       ("value", JsString match bt_value p with
                                          | Some "" | None => "0"
                                          | Some value => value
                                          end);
                       ("chainId", JsNumber (chain_id rt (bt_chain p)))])).
Proof.
  split.
  - intros Henc Hid. unfold buildTransactionTool, buildTransaction_try.
    by rewrite Henc, Hid.
  - intros data Henc. unfold buildTransactionTool, buildTransaction_try. rewrite Henc.
    cbn. destruct (bt_value p) as [[|c value]|]; reflexivity.
Qed.


(** The Uniswap tool is all or nothing: it succeeds exactly when the five
    reads all return, and then reports the two tokens, the fee divided by
    10000 with a "%", the liquidity and the square-root price in decimal
    and the tick; one rejected read makes the whole call fail. *)
Theorem getUniswapPool_all_or_nothing (rt : Runtime) (p : UniswapParams) :
  (field "success" (getUniswapPoolTool rt p) = Some (JsBool true) ↔
   rejection (read_token0 rt (uni_chain p) (uni_poolAddress p))
   ++ rejection (read_token1 rt (uni_chain p) (uni_poolAddress p))
   ++ rejection (read_fee rt (uni_chain p) (uni_poolAddress p))
   ++ rejection (read_liquidity rt (uni_chain p) (uni_poolAddress p))
   ++ rejection (read_slot0 rt (uni_chain p) (uni_poolAddress p)) = []) ∧
  (∀ token0 token1 fee liquidity sqrtPriceX96 tick,
     read_token0 rt (uni_chain p) (uni_poolAddress p) = Returned token0 →
     read_token1 rt (uni_chain p) (uni_poolAddress p) = Returned token1 →
     read_fee rt (uni_chain p) (uni_poolAddress p) = Returned fee →
     read_liquidity rt (uni_chain p) (uni_poolAddress p) = Returned liquidity →
     read_slot0 rt (uni_chain p) (uni_poolAddress p) = Returned (sqrtPriceX96, tick) →
     field "data" (getUniswapPoolTool rt p)
     = Some (JsObject
               [("token0", JsString token0);
                ("token1", JsString token1);
                ("fee", JsString (Number_toString rt
                                    (Binary64.div (Binary64.of_Z fee) (Binary64.of_Z 10000))
                                  +:+ "%"));
                ("liquidity", JsString (pretty liquidity));
                ("currentTick", JsNumber tick);
                ("sqrtPriceX96", JsString (pretty sqrtPriceX96))])).
Proof.
  unfold getUniswapPoolTool, getUniswapPool_try. split.
  - destruct (read_token0 rt _ _), (read_token1 rt _ _), (read_fee rt _ _),
      (read_liquidity rt _ _), (read_slot0 rt _ _); cbn; split; done.
  - intros token0 token1 fee liquidity sqrtPriceX96 tick -> -> -> -> ->. reflexivity.
Qed.

Section Balances.
Variable rt : Runtime.

Lemma elem_of_keys_set {V} k' k (v : V) (m : list (string * V)) :
  k' ∈ JsMap.keys (JsMap.set k v m) ↔ k' = k ∨ k' ∈ JsMap.keys m.
Proof.
  rewrite keys_set. destruct (JsMap.get k m) eqn:Hget.
  - split; [by right|]. intros [->|Hin]; [|done].
    destruct (decide (k ∈ JsMap.keys m)) as [Hin|Hnotin]; [done|].
    apply get_None_keys in Hnotin. congruence.
  - rewrite elem_of_app, list_elem_of_singleton. tauto.
Qed.

Lemma keys_foldl_slots (p : BalanceParams) (settled : list ChainName)
    (acc : list (string * JsValue)) :
  let filled :=
    foldl (λ balances c, JsMap.set (chain_key c) (JsString (balance_slot rt p c)) balances)
          acc settled in
  (NoDup (JsMap.keys acc) → NoDup (JsMap.keys filled)) ∧
  (∀ k, k ∈ JsMap.keys filled ↔
        k ∈ JsMap.keys acc ∨ ∃ c, c ∈ settled ∧ k = chain_key c) ∧
  (Forall (λ kv, ∃ text, kv.2 = JsString text) acc →
   Forall (λ kv, ∃ text, kv.2 = JsString text) filled).
Proof.
  revert acc. induction settled as [|c settled IH]; intros acc; cbn [foldl].
  - split_and!; [done | | done]. intros k. split; [by left|].
    intros [?|(c & Hc & _)]; [done | by apply elem_of_nil in Hc].
  - destruct (IH (JsMap.set (chain_key c) (JsString (balance_slot rt p c)) acc))
      as (IHnd & IHin & IHstr).
    split_and!.
    + intros Hnd. by apply IHnd, NoDup_keys_set.
    + intros k. rewrite IHin, elem_of_keys_set. split.
      * intros [[->|Hin]|(c' & Hc' & ->)].
        -- right. exists c. split; [by left | done].
        -- by left.
        -- right. exists c'. split; [by right | done].
      * intros [Hin|(c' & [->|Hc']%elem_of_cons & ->)].
        -- left. by right.
        -- left. by left.
        -- right. by exists c'.
    + intros Hstr. apply IHstr. apply Forall_set; [by eexists | done].
Qed.

(** The [balances] object of the multi-chain tool has one slot per chain
    requested, however often the chain is requested: its keys are the
    names of the requested chains, each once, so at most five; every slot
    holds a string; and an empty request gives [success: true] with an
    empty object. *)
Theorem multi_chain_slots (p : BalanceParams) :
  ∃ balances,
    field "balances" (getMultiChainBalanceTool rt p) = Some (JsObject balances) ∧
    NoDup (JsMap.keys balances) ∧
    (∀ k, k ∈ JsMap.keys balances ↔ ∃ c, c ∈ bal_chains p ∧ k = chain_key c) ∧
    (length balances ≤ 5)%nat ∧
    (length balances ≤ length (bal_chains p))%nat ∧
    Forall (λ kv, ∃ text, kv.2 = JsString text) balances ∧
    (bal_chains p = [] →
     getMultiChainBalanceTool rt p
     = JsObject [("success", JsBool true);
                 ("address", JsString (bal_address p));
                 ("token", JsString (bal_tokenAddress p));
                 ("balances", JsObject [])]).
Proof.
  exists (fill_balances rt p (bal_chains p)).
  destruct (keys_foldl_slots p (bal_chains p) []) as (Hnd & Hin & Hstr).
  fold (fill_balances rt p (bal_chains p)) in Hnd, Hin, Hstr.
  specialize (Hnd (NoDup_nil_2)). specialize (Hstr (Forall_nil_2 _)).
  assert (∀ k, k ∈ JsMap.keys (fill_balances rt p (bal_chains p)) ↔
               ∃ c, c ∈ bal_chains p ∧ k = chain_key c) as Hkeys.
  { intros k. rewrite Hin. split; [|by right]. intros [Hnil|?]; [|done].
    by apply elem_of_nil in Hnil. }
  split_and!; try done.
  - replace (length (fill_balances rt p (bal_chains p)))
      with (length (JsMap.keys (fill_balances rt p (bal_chains p))))
      by apply length_fmap.
    change 5%nat with (length (chain_key <$> [base; mainnet; arbitrum; optimism; polygon])).
    apply submseteq_length, NoDup_submseteq; [done|].
    intros k (c & _ & ->)%Hkeys. apply list_elem_of_fmap. exists c. split; [done|].
    destruct c; cbn; repeat constructor.
  - replace (length (fill_balances rt p (bal_chains p)))
      with (length (JsMap.keys (fill_balances rt p (bal_chains p))))
      by apply length_fmap.
    rewrite <- (length_fmap chain_key (bal_chains p)).
    apply submseteq_length, NoDup_submseteq; [done|].
    intros k (c & Hc & ->)%Hkeys. apply list_elem_of_fmap. by exists c.
  - intros Hempty. unfold getMultiChainBalanceTool, getMultiChainBalance_try.
    by rewrite Hempty.
Qed.

End Balances.
End ToolsExtra.

(** ** Rounding of the reported rates *)

Module RatesExtra.
Import BlockchainTools ToolsSpec.

Lemma two_digits_length_upto :
  forallb (λ r, Nat.eqb (String.length (Binary64.two_digits (Z.of_nat r))) 2)
          (seq 0 (Z.to_nat 100)) = true.
Proof. by vm_compute. Qed.

Lemma two_digits_length (r : Z) :
  0 ≤ r < 100 → String.length (Binary64.two_digits r) = 2%nat.
Proof.
  intros Hr. apply Nat.eqb_eq. pose proof two_digits_length_upto as Hall.
  rewrite forallb_forall in Hall. rewrite <- (Z2Nat.id r) by lia.
  apply Hall, in_seq. lia.
Qed.

Lemma nearest_hundredths_below (m : positive) (e : Z) :
  e < 0 →
  2 * Z.abs (2 ^ (- e) * Binary64.nearest_hundredths m e - 100 * Z.pos m) ≤ 2 ^ (- e).
Proof.
  intros He. unfold Binary64.nearest_hundredths.
  destruct (Z.leb_spec 0 e) as [?|_]; [lia|].
  replace (1 - e) with (Z.succ (- e)) by lia. rewrite Z.pow_succ_r by lia.
  assert (0 < 2 ^ (- e)) as Hpow by (apply Z.pow_pos_nonneg; lia).
  set (k := 2 ^ (- e)) in *.
  pose proof (Z.div_mod (200 * Z.pos m + k) (2 * k)) as Hdiv.
  pose proof (Z.mod_pos_bound (200 * Z.pos m + k) (2 * k)) as Hmod.
  set (n := (200 * Z.pos m + k) / (2 * k)) in *.
  set (r := (200 * Z.pos m + k) mod (2 * k)) in *. nia.
Qed.

Lemma nearest_hundredths_nonneg (m : positive) (e : Z) :
  0 ≤ Binary64.nearest_hundredths m e.
Proof.
  unfold Binary64.nearest_hundredths. destruct (Z.leb_spec 0 e).
  - assert (0 ≤ 2 ^ e) by (apply Z.pow_nonneg; lia). nia.
  - apply Z.div_pos.
    + assert (0 ≤ 2 ^ (- e)) by (apply Z.pow_nonneg; lia). lia.
    + apply Z.pow_pos_nonneg; lia.
Qed.

(** The rate the Aave tool prints is the hundredth nearest to the double
    it computed: when [(Number(rate) / 1e27) * 100] is the positive double
    [m * 2^e] below 1e21, the string is [n / 100], a point, the two digits
    of [n mod 100] and "%", where [n] is [100 * m * 2^e] when that is an
    integer and otherwise an integer within one half of it. *)
Theorem apy_string_nearest_hundredth (rt : Runtime) (rate : Z) (m : positive) (e : Z) :
  Binary64.mul (Binary64.div (Binary64.of_Z rate) (Binary64.of_Z (10 ^ 27)))
               (Binary64.of_Z 100)
  = S754_finite false m e →
  Binary64.at_least_1e21 m e = false →
  ∃ n,
    0 ≤ n ∧
    apy_string rt rate
    = (pretty (n / 100) +:+ "." +:+ Binary64.two_digits (n mod 100)) +:+ "%" ∧
    String.length (Binary64.two_digits (n mod 100)) = 2%nat ∧
    (0 ≤ e → n = Z.pos m * 2 ^ e * 100) ∧
    (e < 0 → 2 * Z.abs (2 ^ (- e) * n - 100 * Z.pos m) ≤ 2 ^ (- e)).
Proof.
  intros Hdouble Hsmall. exists (Binary64.nearest_hundredths m e). split_and!.
  - apply nearest_hundredths_nonneg.
  - unfold apy_string. rewrite Hdouble. unfold Binary64.toFixed2. by rewrite Hsmall.
  - apply two_digits_length, Z.mod_pos_bound. lia.
  - intros He. unfold Binary64.nearest_hundredths. by destruct (Z.leb_spec 0 e); [|lia].
  - apply nearest_hundredths_below.
Qed.

End RatesExtra.

(** ** The call data of the token-balance handler *)

Module TokenBalanceExtra.
Import Stdlib.Strings.Ascii TokenBalance.

Lemma length_string_app (a b : string) :
  String.length (a +:+ b) = (String.length a + String.length b)%nat.
Proof.
  induction a as [|c a IH]; [done|].
  change (S (String.length (a +:+ b)) = S (String.length a + String.length b)).
  by rewrite IH.
Qed.

Lemma length_repeat_char c n : String.length (repeat_char c n) = n.
Proof. induction n as [|n IH]; [done|]. cbn. by rewrite IH. Qed.

Lemma length_slice_from n s :
  String.length (slice_from n s) = (String.length s - n)%nat.
Proof.
  revert s. induction n as [|n IH]; intros [|c s]; cbn; try done; try apply IH; lia.
Qed.

(** The call data is the selector of [balanceOf(address)] followed by the
    address without its first two characters, left-padded with zeros to
    64 characters: 74 characters for a 42-character address, whose 40
    digits end the word after 24 zeros.  Nothing is validated or cut: an
    address of more than 66 characters is appended whole and makes the
    data longer than one word, and the first two characters are dropped
    whether or not they are "0x". *)
Theorem balanceOf_calldata_layout (address : string) :
  balanceOf_calldata address
  = "0x70a08231" +:+ repeat_char "0" (64 - (String.length address - 2))
    +:+ slice_from 2 address ∧
  String.length (balanceOf_calldata address)
  = (10 + Nat.max 64 (String.length address - 2))%nat ∧
  (String.length address = 42%nat →
   balanceOf_calldata address
   = "0x70a08231" +:+ "000000000000000000000000" +:+ slice_from 2 address ∧
   String.length (slice_from 2 address) = 40%nat ∧
   String.length (balanceOf_calldata address) = 74%nat) ∧
  ((66 < String.length address)%nat →
   balanceOf_calldata address = "0x70a08231" +:+ slice_from 2 address ∧
   (74 < String.length (balanceOf_calldata address))%nat) ∧
  (∀ c1 c2 rest, address = String c1 (String c2 rest) → slice_from 2 address = rest).
Proof.
  assert (balanceOf_calldata address
          = "0x70a08231" +:+ repeat_char "0" (64 - (String.length address - 2))
            +:+ slice_from 2 address) as Hlayout.
  { unfold balanceOf_calldata, padStart. by rewrite length_slice_from. }
  assert (String.length (balanceOf_calldata address)
          = (10 + Nat.max 64 (String.length address - 2))%nat) as Hlen.
  { rewrite Hlayout, !length_string_app, length_repeat_char, length_slice_from.
    cbn [String.length]. lia. }
  split_and!; [done | done | | |].
  - intros H42. rewrite length_slice_from, Hlen, Hlayout, H42. by split_and!.
  - intros Hlong. rewrite Hlen. split; [|lia]. rewrite Hlayout.
    replace (64 - (String.length address - 2))%nat with 0%nat by lia. done.
  - by intros c1 c2 rest ->.
Qed.

End TokenBalanceExtra.

(** ** Concrete instances of the further properties *)

Module ExtraInstances.
Import Coordinator CoordinatorSpec CoordinatorProps CoordinatorTrace CoordinatorExtra.
Import CoordinatorInstances BlockchainTools ToolsSpec ToolsExtra RatesExtra.
Import TokenBalance TokenBalanceExtra.

Lemma demo_request_stored :
  delegations (delegateTask demo_uuid demo_clock demo_request initial).2 !! demo_uuid 0
  = Some (delegated demo_uuid demo_request 0).
Proof. rewrite delegateTask_run. cbn [snd delegations]. apply lookup_insert_eq. Qed.

Lemma messaging_keeps_registry_witness :
  listAgents (exec_all demo_uuid demo_clock
                [SendMessage (hello "yield-1" "ping"); ReceiveMessages "yield-1";
                 DelegateTask demo_request; GetDelegation "task-0"] demo_service)
  = (Returned (JsMap.values (agents demo_service)),
     exec_all demo_uuid demo_clock
       [SendMessage (hello "yield-1" "ping"); ReceiveMessages "yield-1";
        DelegateTask demo_request; GetDelegation "task-0"] demo_service).
Proof. apply messaging_keeps_registry. by repeat constructor. Defined.

Lemma reputations_stay_bounded_witness :
  Forall (λ agent, 0 ≤ reputation agent ≤ 200)
    (JsMap.values
       (agents (exec_all demo_uuid demo_clock
                  [RegisterAgent yield_agent; UpdateReputation "yield-1" 500;
                   UpdateReputation "yield-1" (-1000); RegisterAgent lending_agent]
                  initial))).
Proof.
  apply Forall_forall. intros agent Hin.
  eapply (reputations_stay_bounded demo_uuid demo_clock); [|exact Hin].
  apply Forall_nil_2.
Defined.

Lemma identifiers_stay_unique_witness :
  NoDup (a_id <$> JsMap.values
           (agents (exec_all demo_uuid demo_clock
                      [RegisterAgent yield_agent; RegisterAgent lending_agent;
                       RegisterAgent yield_agent_again; UpdateReputation "lend-7" 5]
                      initial))).
Proof.
  eapply proj1, (identifiers_stay_unique demo_uuid demo_clock).
  - apply NoDup_nil_2.
  - apply Forall_nil_2.
Defined.

Lemma delegations_persist_witness :
  is_Some (delegations
             (exec_all demo_uuid demo_clock
                [UpdateDelegation "task-0" Failed JsNull (Some "timeout");
                 ComposeWorkflow {| w_name := "rebalance"; steps := [yield_step] |};
                 ReceiveMessages "yield-1"]
                (delegateTask demo_uuid demo_clock demo_request initial).2)
           !! demo_uuid 0).
Proof.
  destruct (delegations_persist demo_uuid demo_clock
              [UpdateDelegation "task-0" Failed JsNull (Some "timeout");
               ComposeWorkflow {| w_name := "rebalance"; steps := [yield_step] |};
               ReceiveMessages "yield-1"]
              (delegateTask demo_uuid demo_clock demo_request initial).2) as [Hkept _].
  apply Hkept. rewrite demo_request_stored. by eexists.
Defined.

Lemma mailbox_append_only_witness :
  mailbox demo_service "yield-1"
  `prefix_of`
  mailbox (exec_all demo_uuid demo_clock
             [SendMessage (hello "yield-1" "ping"); ReceiveMessages "lend-7";
              DelegateTask demo_request] demo_service) "yield-1".
Proof.
  apply mailbox_append_only. repeat constructor; intros H; discriminate H.
Defined.

Lemma received_once_witness :
  ∃ s1 s2 s3,
    receiveMessages "yield-1"
      (sendMessage demo_clock (hello "yield-1" "stale") initial).2
    = (Returned [{| m_from := "planner"; m_to := "yield-1"; m_type := MsgRequest;
                    m_payload := JsString "stale"; timestamp := 1700000000000;
                    m_signature := None |}], s1) ∧
    sendAll demo_clock [hello "yield-1" "ping"; hello "lend-7" "pong"] s1
    = (Returned (), s2) ∧
    receiveMessages "yield-1" s2
    = (Returned [{| m_from := "planner"; m_to := "yield-1"; m_type := MsgRequest;
                    m_payload := JsString "ping"; timestamp := 1700000000001;
                    m_signature := None |}], s3) ∧
    messages s3 !! "yield-1" = None.
Proof.
  destruct (received_once demo_clock
              (sendMessage demo_clock (hello "yield-1" "stale") initial).2
              [hello "yield-1" "ping"; hello "lend-7" "pong"] "yield-1")
    as (s1 & s2 & s3 & Hfirst & Hsend & Hsecond & Hgone).
  exists s1, s2, s3. split_and!; [| exact Hsend | | exact Hgone].
  - rewrite Hfirst. unfold mailbox. rewrite sendMessage_run.
    cbn [snd messages]. unfold deliver. rewrite lookup_insert_eq. reflexivity.
  - rewrite Hsecond. reflexivity.
Defined.

Lemma delegateTask_notifies_assignee_witness :
  ∃ record s',
    delegateTask demo_uuid demo_clock demo_request initial = (Returned record, s') ∧
    mailbox s' "planner" = mailbox initial "planner".
Proof.
  destruct (delegateTask_notifies_assignee demo_uuid demo_clock initial demo_request)
    as (record & s' & msg & Hrun & _ & _ & _ & _ & _ & _ & _ & _ & Hothers & _).
  exists record, s'. split; [exact Hrun|]. apply Hothers. intros H; discriminate H.
Defined.

Lemma updates_accumulate_witness :
  ∃ s' d',
    updateAll demo_clock "task-0"
      [{| u_status := Completed; u_result := JsString "4.2%"; u_error := None |};
       {| u_status := InProgress; u_result := JsNumber 0; u_error := Some "late" |}]
      (delegateTask demo_uuid demo_clock demo_request initial).2
    = (Returned (), s') ∧
    getDelegation "task-0" s' = (Returned (Some d'), s') ∧
    status d' = InProgress ∧ result d' = JsString "4.2%" ∧ error d' = Some "late".
Proof.
  destruct (updates_accumulate demo_clock
              (delegateTask demo_uuid demo_clock demo_request initial).2 "task-0"
              [{| u_status := Completed; u_result := JsString "4.2%"; u_error := None |};
               {| u_status := InProgress; u_result := JsNumber 0; u_error := Some "late" |}])
    as [Hfound _].
  destruct (Hfound _ demo_request_stored)
    as (s' & d' & Hrun & Hget & _ & Hst & Hres & Herr & _).
  by exists s', d'.
Defined.

Lemma composeWorkflow_app_witness :
  ∃ results_a s1,
    composeWorkflow demo_uuid demo_clock
      {| w_name := "rebalance"; steps := [yield_step] |} demo_service
    = (Returned results_a, s1) ∧
    composeWorkflow demo_uuid demo_clock
      {| w_name := "rebalance"; steps := [yield_step] ++ [yield_step; bridge_step] |}
      demo_service
    = match composeWorkflow demo_uuid demo_clock
              {| w_name := "rebalance"; steps := [yield_step; bridge_step] |} s1 with
      | (Returned results_b, s2) => (Returned (results_a ++ results_b), s2)
      | (Thrown message, s2) => (Thrown message, s2)
      end.
Proof.
  assert (unmatched (agents demo_service) [yield_step] = None) as Hu by (by vm_compute).
  eexists _, _. split.
  - rewrite composeWorkflow_run, Hu. reflexivity.
  - apply composeWorkflow_app. rewrite composeWorkflow_run, Hu. reflexivity.
Defined.

Lemma registerAgent_listAgents_witness :
  ∃ record s',
    registerAgent demo_clock yield_agent initial = (Returned record, s') ∧
    listAgents s' = (Returned [record], s').
Proof.
  destruct (registerAgent_listAgents demo_clock initial yield_agent)
    as (record & s' & Hrun & Hnew & _).
  exists record, s'. split; [exact Hrun|]. by apply Hnew.
Defined.

Lemma registerAgent_then_discoverAgents_witness :
  ∃ record s' found,
    registerAgent demo_clock lending_agent demo_service = (Returned record, s') ∧
    discoverAgents "aave" s' = (Returned found, s') ∧
    record ∈ found.
Proof.
  destruct (registerAgent_then_discoverAgents demo_clock demo_service lending_agent "aave")
    as (record & s' & found & Hrun & Hfound & _ & Hiff & _).
  exists record, s', found. split_and!; [exact Hrun | exact Hfound |].
  apply Hiff. exists lending_capability. split; [by left|].
  right. left. by left.
Defined.

Lemma updateReputation_twice_witness :
  ∃ s1 s2 agent2,
    updateReputation demo_clock "yield-1" 500 demo_service = (Returned (), s1) ∧
    updateReputation demo_clock "yield-1" 100 s1 = (Returned (), s2) ∧
    JsMap.get "yield-1" (agents s2) = Some agent2 ∧
    reputation agent2 = 200.
Proof.
  destruct (updateReputation_twice demo_clock demo_service "yield-1" 500 100 _
              yield_agent_registered)
    as (s1 & s2 & agent2 & Hrun1 & Hrun2 & Hget & _ & _ & _ & Htop & _).
  exists s1, s2, agent2. split_and!; try done. apply Htop; [cbn; lia | lia].
Defined.

Lemma buildTransaction_offline_witness :
  field "transaction"
    (buildTransactionTool demo_runtime
       {| bt_chain := base; bt_contractAddress := "0x833589fCD6eDb6E08f4c7C32D4f71b54bdA02913";
          bt_functionName := "transfer"; bt_abi := []; bt_args := None;
          bt_value := Some "" |})
  = Some (JsObject [("to", JsString "0x833589fCD6eDb6E08f4c7C32D4f71b54bdA02913");
                    ("data", JsString "0xa9059cbb");
                    ("value", JsString "0");
                    ("chainId", JsNumber 8453)]).
Proof.
  destruct (buildTransaction_offline demo_runtime demo_runtime
              {| bt_chain := base;
                 bt_contractAddress := "0x833589fCD6eDb6E08f4c7C32D4f71b54bdA02913";
                 bt_functionName := "transfer"; bt_abi := []; bt_args := None;
                 bt_value := Some "" |}) as [_ Hok].
  exact (Hok "0xa9059cbb" eq_refl).
Defined.


Lemma getUniswapPool_all_or_nothing_witness :
  field "data"
    (getUniswapPoolTool demo_runtime
       {| uni_chain := base; uni_poolAddress := "0xd0b53D9277642d899DF5C87A3966A349A798F224" |})
  = Some (JsObject
            [("token0", JsString "0x4200000000000000000000000000000000000006");
             ("token1", JsString "0x833589fCD6eDb6E08f4c7C32D4f71b54bdA02913");
             ("fee", JsString "0.3%");
             ("liquidity", JsString "123456789");
             ("currentTick", JsNumber 0);
             ("sqrtPriceX96", JsString "79228162514264337593543950336")]).
Proof.
  destruct (getUniswapPool_all_or_nothing demo_runtime
              {| uni_chain := base;
                 uni_poolAddress := "0xd0b53D9277642d899DF5C87A3966A349A798F224" |})
    as [_ Hdata].
  rewrite (Hdata _ _ _ _ _ _ eq_refl eq_refl eq_refl eq_refl eq_refl). by vm_compute.
Defined.

Lemma multi_chain_slots_witness :
  getMultiChainBalanceTool demo_runtime
    {| bal_address := "0x000000000000000000000000000000000000dEaD";
       bal_tokenAddress := "0x833589fCD6eDb6E08f4c7C32D4f71b54bdA02913";
       bal_chains := [] |}
  = JsObject [("success", JsBool true);
              ("address", JsString "0x000000000000000000000000000000000000dEaD");
              ("token", JsString "0x833589fCD6eDb6E08f4c7C32D4f71b54bdA02913");
              ("balances", JsObject [])].
Proof.
  destruct (multi_chain_slots demo_runtime
              {| bal_address := "0x000000000000000000000000000000000000dEaD";
                 bal_tokenAddress := "0x833589fCD6eDb6E08f4c7C32D4f71b54bdA02913";
                 bal_chains := [] |}) as (balances & _ & _ & _ & _ & _ & _ & Hempty).
  by apply Hempty.
Defined.

Lemma mailboxes_chronological_witness :
  ∃ waiting s',
    receiveMessages "yield-1"
      (exec_all demo_uuid demo_clock
         [RegisterAgent yield_agent; SendMessage (hello "yield-1" "ping");
          DelegateTask demo_request;
          ComposeWorkflow {| w_name := "rebalance"; steps := [yield_step; yield_step] |}]
         initial)
    = (Returned waiting, s') ∧
    StronglySorted Z.le (timestamp <$> waiting).
Proof.
  apply (mailboxes_chronological demo_uuid demo_clock).
  intros i j Hij. unfold demo_clock. lia.
Defined.

Lemma apy_string_nearest_hundredth_witness :
  ∃ n,
    0 ≤ n ∧
    apy_string demo_runtime (725 * 10 ^ 23)
    = (pretty (n / 100) +:+ "." +:+ Binary64.two_digits (n mod 100)) +:+ "%" ∧
    String.length (Binary64.two_digits (n mod 100)) = 2%nat ∧
    (0 ≤ -50 → n = 8162774324609023 * 2 ^ (-50) * 100) ∧
    (-50 < 0 → 2 * Z.abs (2 ^ (- -50) * n - 100 * 8162774324609023) ≤ 2 ^ (- -50)).
Proof.
  apply (apy_string_nearest_hundredth demo_runtime (725 * 10 ^ 23) 8162774324609023 (-50));
    by vm_compute.
Defined.

Lemma balanceOf_calldata_layout_witness :
  balanceOf_calldata "0x000000000000000000000000000000000000dEaD"
  = "0x70a08231000000000000000000000000000000000000000000000000000000000000dEaD".
Proof.
  destruct (balanceOf_calldata_layout "0x000000000000000000000000000000000000dEaD")
    as (_ & _ & H42 & _).
  destruct (H42 eq_refl) as (-> & _). reflexivity.
Defined.

End ExtraInstances.
